(** * MCP client: tool catalog, tool execution and the bounded chat loop

    A shallow embedding of [src/lib/mcp-client.ts] (class [MCPClient]):
    [initialize], [initializeTools], [getOllamaTools], [executeToolCalls]
    and [chat], with the properties of the specification proved or refuted
    on it.

    Conventions of the embedding.
    - JavaScript values that the code inspects dynamically (tool listings,
      tool-call arguments, tool results) are trees of type [value].  They
      are decoded from the wire, so two composite values are never the same
      object; numbers are integers, only their being zero is inspected.
    - Asynchronous code runs on one logical flow ([await] in a [for] loop),
      so it is embedded as a state-and-exception monad [M].
    - Everything outside the repository (the MCP servers, the model backend,
      [JSON.parse], [JSON.stringify], [String.prototype.trim], [URL]) is a
      field of the environment record [Env]; servers and backend may be
      stateful, their state is the abstract world [W].
    - The calls of the environment are functions and a response is a
      finite list of parts: every awaited call settles, with a value or
      with an error.  A call that never settles is outside the embedding.
    - Arrays of messages and message objects live in a store and are
      referred to by location, so that aliasing ([push] after a spread copy,
      [message.content +=] after [push]) is what the code does. *)

From Stdlib Require Import ZArith Lia Bool Ascii.
From stdpp Require Import base list strings pretty.

Set Warnings "-register-all".

(** ** JavaScript values *)

Inductive value : Type :=
| VUndefined
| VNull
| VBool (b : bool)
| VNum (n : Z)
| VStr (s : string)
| VArr (elems : list value)
| VObj (fields : list (string * value)).

(** Fields of [VObj] are listed in own-property order, the order of
    [Object.values] and [Object.entries]. *)

Module JS.

(** [ToBoolean]. *)
Definition truthy (v : value) : bool :=
  match v with
  | VUndefined | VNull => false
  | VBool b => b
  | VNum n => negb (n =? 0)%Z
  | VStr s => negb (String.eqb s EmptyString)
  | VArr _ | VObj _ => true
  end.

Definition typeof (v : value) : string :=
  match v with
  | VUndefined => "undefined"
  | VNull => "object"
  | VBool _ => "boolean"
  | VNum _ => "number"
  | VStr _ => "string"
  | VArr _ | VObj _ => "object"
  end.

Definition isArray (v : value) : bool :=
  match v with VArr _ => true | _ => false end.

Fixpoint lookup_field (k : string) (fs : list (string * value)) : value :=
  match fs with
  | [] => VUndefined
  | (k', v) :: fs' => if String.eqb k' k then v else lookup_field k fs'
  end.

(** Property read [v.k] for the keys this program reads ([tools],
    [result], [name], [description], [inputSchema]); none of them is an
    own property of an array, and the program reads them on non-null
    objects only. *)
Definition get (v : value) (k : string) : value :=
  match v with
  | VObj fs => lookup_field k fs
  | _ => VUndefined
  end.

Definition Object_values (v : value) : list value :=
  match v with
  | VObj fs => map snd fs
  | VArr l => l
  | _ => []
  end.

Definition elements (v : value) : list value :=
  match v with VArr l => l | _ => [] end.

(** [a || b]. *)
Definition or (a b : value) : value := if truthy a then a else b.

(** [SameValueZero], the key equality of [Map]: primitives by value,
    composites by identity, and two composites of this program are
    never identical. *)
Definition same_value_zero (a b : value) : bool :=
  match a, b with
  | VUndefined, VUndefined => true
  | VNull, VNull => true
  | VBool x, VBool y => Bool.eqb x y
  | VNum x, VNum y => (x =? y)%Z
  | VStr x, VStr y => String.eqb x y
  | _, _ => false
  end.

End JS.

(** ** An insertion-ordered [Map] *)

Module JSMap.

Abbreviation t V := (list (value * V)).

Section WithValues.
Context {V : Type}.

(** [m.set(k, v)]: an existing key keeps its position. *)
Fixpoint set (k : value) (v : V) (m : t V) : t V :=
  match m with
  | [] => [(k, v)]
  | (k', v') :: m' =>
      if JS.same_value_zero k' k then (k', v) :: m'
      else (k', v') :: set k v m'
  end.

(** [m.get(k)], [None] for [undefined]. *)
Fixpoint get (k : value) (m : t V) : option V :=
  match m with
  | [] => None
  | (k', v') :: m' =>
      if JS.same_value_zero k' k then Some v' else get k m'
  end.

(** The entries stored under [k]. *)
Definition entries_at (k : value) (m : t V) : t V :=
  filter (fun e => JS.same_value_zero (fst e) k = true) m.

End WithValues.
End JSMap.

(** ** Data of the client *)

Record ToolDescriptor : Type := mkTool {
  td_name : value;
  td_description : value;
  td_inputSchema : value;
  td_serverName : string
}.

Record OllamaTool : Type := mkOllamaTool {
  ot_name : value;
  ot_description : value;
  ot_parameters : value
}.

(** [{ function: { name, arguments } }], typed as the backend library
    declares it; [arguments] is read dynamically by the code. *)
Record ToolCall : Type := mkToolCall {
  tc_name : string;
  tc_arguments : value
}.

Record Message : Type := mkMessage {
  msg_role : option string;
  msg_name : option string;
  msg_content : string;
  msg_tool_calls : option (list ToolCall)
}.

Record PartMessage : Type := mkPartMessage {
  pm_content : option string;
  pm_tool_calls : option (list ToolCall)
}.

(** One chunk of a streamed response, [part.message] may be absent. *)
Record Part : Type := mkPart { part_message : option PartMessage }.

Record MCPServer : Type := mkServer {
  srv_type : string;
  srv_url : option string;
  srv_command : option string;
  srv_args : option (list string);
  srv_env : option (list (string * string))
}.

Inductive Transport : Type :=
| SSEClientTransport (url : string)
| StdioClientTransport (command : string) (args : list string)
    (env : option (list (string * string))).

(** A thrown [Error], with its [message]. *)
Record exn : Type := Err { message : string }.

Inductive result (A : Type) : Type :=
| Ok (a : A)
| Throw (e : exn).
Arguments Ok {A} a.
Arguments Throw {A} e.

(** A streamed response: the parts it yields and, when the stream breaks,
    the error raised after them. *)
Record Response : Type := mkResponse {
  parts : list Part;
  failure : option exn
}.

(** ** The environment

    What the program calls and does not define.  [W] is the state of the
    outside world (servers, backend, file system); every call takes the
    world and returns the next one. *)

Record Env : Type := mkEnv {
  W : Type;
  ChatSettings : Type;
  (** [JSON.parse], [Throw] for a [SyntaxError]. *)
  JSON_parse : string -> result value;
  (** [JSON.stringify(v)] and [JSON.stringify(v, null, 2)]. *)
  JSON_stringify : value -> string;
  JSON_stringify_2 : value -> string;
  (** [JSON.stringify(toolCalls, null, 2)]. *)
  JSON_stringify_calls : list ToolCall -> string;
  (** [String.prototype.trim]. *)
  trim : string -> string;
  (** [new URL(s)], [Throw] for an invalid URL. *)
  new_URL : string -> result string;
  (** Reading [mcp.json], parsing it and taking
      [Object.entries(cfg.mcpServers)]. *)
  read_config : W -> W * result (list (string * MCPServer));
  (** [client.connect(transport)] of the client created for a server. *)
  connect : W -> string -> Transport -> W * result unit;
  (** [client.listTools()] of a server's client. *)
  listTools : W -> string -> W * result value;
  (** [client.callTool({name, arguments})] of a server's client. *)
  callTool : W -> string -> string -> value -> W * result value;
  (** [ollama.chat({model, messages, tools, stream: true, ...})]. *)
  ollama_chat : W -> ChatSettings -> list Message ->
                option (list OllamaTool) -> W * result Response
}.

Abbreviation loc := nat.

Inductive stream_status : Type :=
| Readable
| Closed
| Errored (e : exn).

(** The effects of a run, in program order. *)
Inductive event : Type :=
| EvConnect (server : string)
| EvListTools (server : string)
| EvChat (messages : list Message)
| EvCallTool (server : string) (name : string) (args : value)
| EvEnqueue (chunk : string)
| EvPush (array : loc) (element : loc) (pushed : Message).

Definition maxIterations : nat := 10.

(** The line feed of the template literals. *)
Definition nl : string := String (Ascii.ascii_of_nat 10) EmptyString.

Definition empty_message : Message := mkMessage None None EmptyString None.

Section Client.

Variable env : Env.

(** ** State: the fields of [MCPClient], the store, the stream *)

Record state : Type := mkState {
  world : W env;
  clients : list string;
  connectedServers : list string;
  mcpToolMap : JSMap.t ToolDescriptor;
  arrays : list (list loc);
  objects : list Message;
  status : stream_status;
  log : list event
}.

Definition with_world w st :=
  mkState w (clients st) (connectedServers st) (mcpToolMap st)
          (arrays st) (objects st) (status st) (log st).
Definition with_clients c st :=
  mkState (world st) c (connectedServers st) (mcpToolMap st)
          (arrays st) (objects st) (status st) (log st).
Definition with_connectedServers c st :=
  mkState (world st) (clients st) c (mcpToolMap st)
          (arrays st) (objects st) (status st) (log st).
Definition with_mcpToolMap m st :=
  mkState (world st) (clients st) (connectedServers st) m
          (arrays st) (objects st) (status st) (log st).
Definition with_arrays a st :=
  mkState (world st) (clients st) (connectedServers st) (mcpToolMap st)
          a (objects st) (status st) (log st).
Definition with_objects o st :=
  mkState (world st) (clients st) (connectedServers st) (mcpToolMap st)
          (arrays st) o (status st) (log st).
Definition with_status s st :=
  mkState (world st) (clients st) (connectedServers st) (mcpToolMap st)
          (arrays st) (objects st) s (log st).
Definition with_log l st :=
  mkState (world st) (clients st) (connectedServers st) (mcpToolMap st)
          (arrays st) (objects st) (status st) l.

(** [new MCPClient()]. *)
Definition new_MCPClient (w : W env) : state :=
  mkState w [] [] [] [] [] Readable [].

(** ** The monad of the embedding *)

Definition M (A : Type) : Type := state -> state * result A.

Definition ret {A} (a : A) : M A := fun st => (st, Ok a).
Definition throw {A} (e : exn) : M A := fun st => (st, Throw e).
Definition bind {A B} (c : M A) (k : A -> M B) : M B :=
  fun st =>
    match c st with
    | (st', Ok a) => k a st'
    | (st', Throw e) => (st', Throw e)
    end.
Definition try_catch {A} (c : M A) (handler : exn -> M A) : M A :=
  fun st =>
    match c st with
    | (st', Ok a) => (st', Ok a)
    | (st', Throw e) => handler e st'
    end.

Notation "x <- c ;; k" := (bind c (fun x => k))
  (at level 100, c at next level, right associativity).
Notation "c ;;; k" := (bind c (fun _ => k))
  (at level 100, right associativity).

Definition gets {A} (f : state -> A) : M A := fun st => (st, Ok (f st)).
Definition modify (f : state -> state) : M unit := fun st => (f st, Ok tt).
Definition lift_result {A} (r : result A) : M A := fun st => (st, r).
Definition emit (ev : event) : M unit :=
  modify (fun st => with_log (log st ++ [ev]) st).
Definition call_world {A} (f : W env -> W env * result A) : M A :=
  fun st => let (w, r) := f (world st) in (with_world w st, r).

Fixpoint for_each {A} (l : list A) (body : A -> M unit) : M unit :=
  match l with
  | [] => ret tt
  | x :: l' => body x ;;; for_each l' body
  end.

(** ** The store *)

Definition alloc_array (l : list loc) : M loc :=
  fun st => (with_arrays (arrays st ++ [l]) st, Ok (length (arrays st))).
Definition alloc_object (m : Message) : M loc :=
  fun st => (with_objects (objects st ++ [m]) st, Ok (length (objects st))).
Definition read_array (a : loc) : M (list loc) :=
  gets (fun st => default [] (arrays st !! a)).
Definition read_object (l : loc) : M Message :=
  gets (fun st => default empty_message (objects st !! l)).
Definition modify_object (l : loc) (f : Message -> Message) : M unit :=
  modify (fun st =>
    with_objects (<[l := f (default empty_message (objects st !! l))]>
                    (objects st)) st).
(** [a.push(x)]; the event records the object as it is when pushed. *)
Definition push (a : loc) (x : loc) : M unit :=
  modify (fun st =>
    with_arrays (<[a := default [] (arrays st !! a) ++ [x]]> (arrays st)) st)
  ;;; m <- read_object x ;; emit (EvPush a x m).
(** [a.push({...})] with a fresh object. *)
Definition push_new (a : loc) (m : Message) : M unit :=
  x <- alloc_object m ;; push a x.

(** The conversation held by array [a]. *)
Definition conversation (st : state) (a : loc) : list Message :=
  map (fun l => default empty_message (objects st !! l))
      (default [] (arrays st !! a)).

(** ** The stream controller; the consumer does not cancel. *)

Definition enqueue (chunk : string) : M unit := emit (EvEnqueue chunk).
Definition controller_close : M unit := modify (with_status Closed).
Definition controller_error (e : exn) : M unit :=
  modify (with_status (Errored e)).

(** ** [initialize] *)

(** [this.clients.set(name, client)]; the client of a server is
    identified by the server's name. *)
Definition clients_set (name : string) : M unit :=
  modify (fun st =>
    if existsb (String.eqb name) (clients st) then st
    else with_clients (clients st ++ [name]) st).

Definition connect_client (name : string) (transport : Transport) : M unit :=
  emit (EvConnect name) ;;;
  call_world (fun w => connect env w name transport).

(** The body of the [try] of one connection attempt. *)
Definition connect_server (name : string) (serverInfo : MCPServer) : M unit :=
  if String.eqb (srv_type serverInfo) "sse" then
    match srv_url serverInfo with
    | Some url =>
        if String.eqb url EmptyString then
          throw (Err ("URL is required for SSE server: " +:+ name))
        else
          u <- lift_result (new_URL env url) ;;
          connect_client name (SSEClientTransport u) ;;;
          clients_set name ;;;
          modify (fun st =>
            with_connectedServers (connectedServers st ++ [name]) st)
    | None => throw (Err ("URL is required for SSE server: " +:+ name))
    end
  else if String.eqb (srv_type serverInfo) "stdio" then
    match srv_command serverInfo, srv_args serverInfo with
    | Some command, Some args =>
        if String.eqb command EmptyString then
          throw (Err ("Command and args are required for stdio server: "
                      +:+ name))
        else
          connect_client name
            (StdioClientTransport command args (srv_env serverInfo)) ;;;
          clients_set name ;;;
          modify (fun st =>
            with_connectedServers (connectedServers st ++ [name]) st)
    | _, _ =>
        throw (Err ("Command and args are required for stdio server: "
                    +:+ name))
    end
  else throw (Err ("Unsupported server type: " +:+ srv_type serverInfo)).

(** ** [initializeTools] *)

(** The coercion of a listing to [toolsArray]. *)
Definition tools_array (tools : value) : list value :=
  if JS.isArray tools then JS.elements tools
  else if JS.truthy tools && String.eqb (JS.typeof tools) "object" then
    if JS.truthy (JS.get tools "tools") && JS.isArray (JS.get tools "tools")
    then JS.elements (JS.get tools "tools")
    else if JS.truthy (JS.get tools "result")
            && JS.isArray (JS.get tools "result")
    then JS.elements (JS.get tools "result")
    else JS.Object_values tools
  else [].

(** [tool && typeof tool === "object" && tool.name]. *)
Definition registrable (tool : value) : bool :=
  JS.truthy tool && String.eqb (JS.typeof tool) "object"
  && JS.truthy (JS.get tool "name").

Definition descriptor (serverName : string) (tool : value) : ToolDescriptor :=
  mkTool (JS.get tool "name")
         (JS.or (JS.get tool "description") (VStr EmptyString))
         (JS.get tool "inputSchema")
         serverName.

Definition register_tool (serverName : string) (tool : value) : M unit :=
  if registrable tool then
    modify (fun st =>
      with_mcpToolMap
        (JSMap.set (JS.get tool "name") (descriptor serverName tool)
                   (mcpToolMap st)) st)
  else ret tt.

Definition list_server_tools (serverName : string) : M unit :=
  emit (EvListTools serverName) ;;;
  tools <- call_world (fun w => listTools env w serverName) ;;
  for_each (tools_array tools) (register_tool serverName).

Definition initializeTools : M unit :=
  try_catch
    (cs <- gets clients ;;
     for_each cs list_server_tools)
    (fun error =>
       throw (Err ("Failed to list MCP tools: " +:+ message error))).

Definition initialize : M unit :=
  mcpServers <- call_world (read_config env) ;;
  for_each mcpServers (fun entry =>
    let name := fst entry in
    let serverInfo := snd entry in
    try_catch (connect_server name serverInfo)
      (fun error =>
         throw (Err ("Failed to connect to MCP server " +:+ name +:+ ": "
                     +:+ message error)))) ;;;
  cs <- gets connectedServers ;;
  if (length cs =? 0)%nat then
    throw (Err "No MCP servers were successfully connected")
  else initializeTools.

(** ** [getOllamaTools] *)

Definition getOllamaTools (m : JSMap.t ToolDescriptor) : list OllamaTool :=
  map (fun e =>
         let tool := snd e in
         mkOllamaTool (td_name tool) (td_description tool)
                      (td_inputSchema tool)) m.

(** ** [executeToolCalls] *)

(** The decoding of [functionCall.arguments]: [typeof args === "string"],
    else [typeof args === "object" && args !== null], else a throw. *)
Definition decode_arguments (args : value) : result value :=
  match args with
  | VStr s => JSON_parse env (trim env s)
  | VObj _ | VArr _ => Ok args
  | _ => Throw (Err ("Unexpected arguments type: " +:+ JS.typeof args))
  end.

Definition tool_result_block (functionName : string) (r : value) : string :=
  "**Tool Result (" +:+ functionName +:+ "):**" +:+ nl +:+ "```json" +:+ nl
  +:+ JSON_stringify_2 env r +:+ nl +:+ "```" +:+ nl +:+ nl.

Definition tool_error_payload (functionName : string) (error : exn) : value :=
  VObj [("error", VStr ("Failed to execute tool " +:+ functionName +:+ ": "
                        +:+ message error))].

Definition tool_error_block (functionName : string) (error : exn) : string :=
  "**Tool Error (" +:+ functionName +:+ "):**" +:+ nl +:+ "```json" +:+ nl
  +:+ JSON_stringify_2 env (tool_error_payload functionName error)
  +:+ nl +:+ "```" +:+ nl +:+ nl.

Definition tool_message (functionName content : string) : Message :=
  mkMessage (Some "tool") (Some functionName) content None.

Definition call_tool (serverName functionName : string) (args : value)
  : M value :=
  emit (EvCallTool serverName functionName args) ;;;
  call_world (fun w => callTool env w serverName functionName args).

(** The body of the [for] loop, one tool call. *)
Definition executeToolCall (messages : loc) (controller : bool)
    (toolCall : ToolCall) : M unit :=
  let functionName := tc_name toolCall in
  parsedArgs <- lift_result (decode_arguments (tc_arguments toolCall)) ;;
  catalog <- gets mcpToolMap ;;
  match JSMap.get (VStr functionName) catalog with
  | None => throw (Err ("MCP tool " +:+ functionName +:+ " not found"))
  | Some mcpTool =>
      try_catch
        (cs <- gets clients ;;
         (if existsb (String.eqb (td_serverName mcpTool)) cs then ret tt
          else throw (Err ("Client for server " +:+ td_serverName mcpTool
                           +:+ " not found"))) ;;;
         r <- call_tool (td_serverName mcpTool) functionName parsedArgs ;;
         (if controller then enqueue (tool_result_block functionName r)
          else ret tt) ;;;
         push_new messages
           (tool_message functionName (JSON_stringify env r)))
        (fun error =>
           (if controller then enqueue (tool_error_block functionName error)
            else ret tt) ;;;
           push_new messages
             (tool_message functionName
                (JSON_stringify env
                   (tool_error_payload functionName error))))
  end.

Definition executeToolCalls (toolCalls : list ToolCall) (messages : loc)
    (controller : bool) : M unit :=
  for_each toolCalls (executeToolCall messages controller).

(** ** [chat] *)

Definition tool_calls_block (toolCalls : list ToolCall) : string :=
  nl +:+ nl +:+ "**Tool Calls:**" +:+ nl +:+ "```json" +:+ nl
  +:+ JSON_stringify_calls env toolCalls +:+ nl +:+ "```" +:+ nl +:+ nl.

Definition append_content (content : string) (m : Message) : Message :=
  mkMessage (msg_role m) (msg_name m) (msg_content m +:+ content)
            (msg_tool_calls m).
Definition set_tool_calls (tcs : list ToolCall) (m : Message) : Message :=
  mkMessage (msg_role m) (msg_name m) (msg_content m) (Some tcs).

(** The body of [for await (const part of response)]. *)
Definition receive_part (message : loc) (part : Part) : M unit :=
  (match part_message part with
   | Some pm =>
       match pm_content pm with
       | Some content =>
           if String.eqb content EmptyString then ret tt
           else enqueue content ;;;
                modify_object message (append_content content)
       | None => ret tt
       end
   | None => ret tt
   end) ;;;
  (match part_message part with
   | Some pm =>
       match pm_tool_calls pm with
       | Some tcs => modify_object message (set_tool_calls tcs)
       | None => ret tt
       end
   | None => ret tt
   end).

Definition receive (response : Response) (message : loc) : M unit :=
  for_each (parts response) (receive_part message) ;;;
  match failure response with
  | Some e => throw e
  | None => ret tt
  end.

Definition call_model (chatSettings : ChatSettings env)
    (currentMessages : loc) (allTools : list OllamaTool) : M Response :=
  snapshot <- gets (fun st => conversation st currentMessages) ;;
  emit (EvChat snapshot) ;;;
  call_world (fun w =>
    ollama_chat env w chatSettings snapshot
      (if (0 <? length allTools)%nat then Some allTools else None)).

(** The [while (iterationCount < maxIterations)] loop.  [fuel] bounds the
    recursion; [maxIterations - iterationCount] is enough of it. *)
Fixpoint chat_loop (fuel : nat) (chatSettings : ChatSettings env)
    (allTools : list OllamaTool) (currentMessages : loc)
    (iterationCount : nat) : M unit :=
  match fuel with
  | O => ret tt
  | S fuel' =>
      if (iterationCount <? maxIterations)%nat then
        let iterationCount := (iterationCount + 1)%nat in
        response <- call_model chatSettings currentMessages allTools ;;
        message <- alloc_object (mkMessage None None EmptyString (Some [])) ;;
        receive response message ;;;
        push currentMessages message ;;;
        m <- read_object message ;;
        let toolCalls := default [] (msg_tool_calls m) in
        if (length toolCalls =? 0)%nat then ret tt
        else
          enqueue (tool_calls_block toolCalls) ;;;
          modify_object message
            (append_content (tool_calls_block toolCalls)) ;;;
          executeToolCalls toolCalls currentMessages true ;;;
          chat_loop fuel' chatSettings allTools currentMessages
                    iterationCount
      else ret tt
  end.

(** [chat], run until its stream is closed or errored. *)
Definition chat (chatSettings : ChatSettings env) (messages : loc) : M unit :=
  allTools <- gets (fun st => getOllamaTools (mcpToolMap st)) ;;
  modify (with_status Readable) ;;;
  try_catch
    (ms <- read_array messages ;;
     currentMessages <- alloc_array ms ;;
     chat_loop maxIterations chatSettings allTools currentMessages 0 ;;;
     controller_close)
    controller_error.

End Client.

(** ** The accessors, the singleton and the request handler

    [getConnectedServers], [getToolCount] and [getMCPClient] of
    [src/lib/mcp-client.ts], and the [POST] handler that serves a chat
    request with the singleton. *)

Section Service.

Variable env : Env.

(** [getConnectedServers]: a copy of the list, here its value. *)
Definition getConnectedServers (st : state env) : list string :=
  connectedServers env st.

(** [getToolCount], the [size] of the map. *)
Definition getToolCount (st : state env) : nat :=
  length (mcpToolMap env st).

(** The module and its variable [mcpClientInstance]: whether the variable
    holds a client, and the state, whose client fields are those of the
    client it holds. *)
Record process : Type := mkProcess {
  mcpClientInstance : bool;
  current : state env
}.

(** [new MCPClient()] in a running process: the three fields of the new
    client are empty. *)
Definition construct (st : state env) : state env :=
  with_clients env []
    (with_connectedServers env [] (with_mcpToolMap env [] st)).

(** [getMCPClient]: the variable is assigned before [initialize] is
    awaited. *)
Definition getMCPClient (p : process) : process * result unit :=
  if mcpClientInstance p then (p, Ok tt)
  else
    let run := initialize env (construct (current p)) in
    (mkProcess true (fst run), snd run).

Inductive HttpResponse : Type :=
| StreamingTextResponse
| ErrorResponse (body : string) (status : nat).

(** [error.error?.message || error.message || "An unexpected error
    occurred"]; an [exn] has a [message] and neither an [error] nor a
    [status] field, as every [Error] this program constructs. *)
Definition errorMessage (error : exn) : string :=
  if String.eqb (message error) EmptyString
  then "An unexpected error occurred"
  else message error.

(** [POST] from its [try] block on (lines 18-40), for a request whose
    body holds a list of messages: [messages] is the location of the
    list.  The stream of the response is run to its end. *)
Definition POST (chatSettings : ChatSettings env) (messages : loc)
    (p : process) : process * HttpResponse :=
  match getMCPClient p with
  | (p1, Ok _) =>
      let run := chat env chatSettings messages (current p1) in
      match snd run with
      | Ok _ =>
          (mkProcess (mcpClientInstance p1) (fst run), StreamingTextResponse)
      | Throw error =>
          (mkProcess (mcpClientInstance p1) (fst run),
           ErrorResponse
             (JSON_stringify env (VObj [("message", VStr (errorMessage error))]))
             500)
      end
  | (p1, Throw error) =>
      (p1,
       ErrorResponse
         (JSON_stringify env (VObj [("message", VStr (errorMessage error))]))
         500)
  end.

(** What the handler finds in its request.  [request.json()] and the
    destructuring of its value come before the [try] block (lines 15-16):
    a body that is not JSON, or whose value is [null], makes the handler
    itself reject with the platform's error.  Inside the [try] block,
    [chat] reads [messages.length] before anything else (line 256): for a
    body without [messages] that is the platform's [TypeError], thrown
    once [getMCPClient] has returned and answered by the [catch] of the
    handler.  A body whose [messages] is a list is given by its settings
    and the location of the list.  A body whose [messages] is a value of
    another kind, or that has no [chatSettings], is not represented. *)
Inductive Request : Type :=
| Unreadable (error : exn)
| WithoutMessages (error : exn)
| WithMessages (chatSettings : ChatSettings env) (messages : loc).

Definition readable (request : Request) : bool :=
  match request with
  | Unreadable _ => false
  | _ => true
  end.

(** The whole handler (lines 14-41).  [Throw] is the rejection of the
    handler itself; an error response is a response. *)
Definition POST_request (request : Request) (p : process)
  : process * result HttpResponse :=
  match request with
  | Unreadable error => (p, Throw error)
  | WithoutMessages error =>
      let client := getMCPClient p in
      (fst client,
       Ok (ErrorResponse
             (JSON_stringify env
                (VObj [("message",
                        VStr (errorMessage
                                match snd client with
                                | Ok _ => error
                                | Throw e => e
                                end))]))
             500))
  | WithMessages chatSettings messages =>
      let run := POST chatSettings messages p in
      (fst run, Ok (snd run))
  end.

End Service.

(** ** A concrete environment

    An instance of [Env] on which the client runs by computation: a parser
    and a printer for the fragment of JSON with integer numbers and strings
    without escapes, ASCII trimming, and servers and a backend given by
    tables.  Its world counts the calls made to the backend. *)

Module Fixture.

Definition dq : string := String (Ascii.ascii_of_nat 34) EmptyString.

Definition code (c : ascii) : nat := Ascii.nat_of_ascii c.

Definition is_space (c : ascii) : bool :=
  let n := code c in
  ((n =? 32) || (n =? 9) || (n =? 10) || (n =? 13) || (n =? 11) || (n =? 12))%nat.

Fixpoint skip_ws (s : string) : string :=
  match s with
  | String c s' => if is_space c then skip_ws s' else s
  | EmptyString => s
  end.

Definition trim (s : string) : string :=
  String.rev (skip_ws (String.rev (skip_ws s))).

Definition digit (c : ascii) : option Z :=
  let n := code c in
  if ((48 <=? n) && (n <=? 57))%nat then Some (Z.of_nat (n - 48)) else None.

Fixpoint read_digits (acc : Z) (s : string) : Z * string :=
  match s with
  | String c s' =>
      match digit c with
      | Some d => read_digits (10 * acc + d) s'
      | None => (acc, s)
      end
  | EmptyString => (acc, s)
  end.

(** An integer literal that continues into a fraction or an exponent is
    outside the fragment. *)
Definition ends_number (s : string) : bool :=
  match s with
  | String c _ =>
      negb ((code c =? 46) || (code c =? 101) || (code c =? 69))%nat
  | EmptyString => true
  end.

Definition starts_with_digit (s : string) : bool :=
  match s with
  | String c _ => match digit c with Some _ => true | None => false end
  | EmptyString => false
  end.

Definition read_int (s : string) : option (Z * string) :=
  match s with
  | String c s' =>
      match digit c with
      | Some d =>
          if (d =? 0)%Z && starts_with_digit s' then None
          else
            let r := read_digits d s' in
            if ends_number (snd r) then Some r else None
      | None => None
      end
  | EmptyString => None
  end.

(** The characters of a string literal, after its opening quote. *)
Fixpoint read_string (s : string) : option (string * string) :=
  match s with
  | EmptyString => None
  | String c s' =>
      if (code c =? 34)%nat then Some (EmptyString, s')
      else if (code c =? 92)%nat || (code c <? 32)%nat then None
      else
        match read_string s' with
        | Some (str, r) => Some (String c str, r)
        | None => None
        end
  end.

Fixpoint expect (lit s : string) : option string :=
  match lit, s with
  | EmptyString, _ => Some s
  | String a lit', String b s' =>
      if Ascii.eqb a b then expect lit' s' else None
  | String _ _, EmptyString => None
  end.

Fixpoint parse_value (fuel : nat) (s : string) : option (value * string) :=
  match fuel with
  | O => None
  | S fuel' =>
      match skip_ws s with
      | EmptyString => None
      | String c rest =>
          let n := code c in
          if (n =? 110)%nat then
            option_map (pair VNull) (expect "ull" rest)
          else if (n =? 116)%nat then
            option_map (pair (VBool true)) (expect "rue" rest)
          else if (n =? 102)%nat then
            option_map (pair (VBool false)) (expect "alse" rest)
          else if (n =? 34)%nat then
            option_map (fun r => (VStr (fst r), snd r)) (read_string rest)
          else if (n =? 91)%nat then
            match skip_ws rest with
            | String c' rest' =>
                if (code c' =? 93)%nat then Some (VArr [], rest')
                else option_map (fun r => (VArr (fst r), snd r))
                                (parse_elements fuel' rest)
            | EmptyString => None
            end
          else if (n =? 123)%nat then
            match skip_ws rest with
            | String c' rest' =>
                if (code c' =? 125)%nat then Some (VObj [], rest')
                else option_map (fun r => (VObj (fst r), snd r))
                                (parse_members fuel' rest)
            | EmptyString => None
            end
          else if (n =? 45)%nat then
            option_map (fun r => (VNum (- fst r), snd r)) (read_int rest)
          else
            option_map (fun r => (VNum (fst r), snd r)) (read_int (String c rest))
      end
  end
with parse_elements (fuel : nat) (s : string) : option (list value * string) :=
  match fuel with
  | O => None
  | S fuel' =>
      match parse_value fuel' s with
      | Some (v, r) =>
          match skip_ws r with
          | String c r' =>
              if (code c =? 44)%nat then
                option_map (fun q => (v :: fst q, snd q))
                           (parse_elements fuel' r')
              else if (code c =? 93)%nat then Some ([v], r')
              else None
          | EmptyString => None
          end
      | None => None
      end
  end
with parse_members (fuel : nat) (s : string)
  : option (list (string * value) * string) :=
  match fuel with
  | O => None
  | S fuel' =>
      match skip_ws s with
      | String q s1 =>
          if (code q =? 34)%nat then
            match read_string s1 with
            | Some (k, s2) =>
                match skip_ws s2 with
                | String colon s3 =>
                    if (code colon =? 58)%nat then
                      match parse_value fuel' s3 with
                      | Some (v, r) =>
                          match skip_ws r with
                          | String c r' =>
                              if (code c =? 44)%nat then
                                option_map (fun q => ((k, v) :: fst q, snd q))
                                           (parse_members fuel' r')
                              else if (code c =? 125)%nat then
                                Some ([(k, v)], r')
                              else None
                          | EmptyString => None
                          end
                      | None => None
                      end
                    else None
                | EmptyString => None
                end
            | None => None
            end
          else None
      | EmptyString => None
      end
  end.

Definition SyntaxError : exn := Err "Unexpected token in JSON".

(** Object members are kept in source order; a repeated key or a key that
    is an array index is outside the fragment. *)
Definition JSON_parse (s : string) : result value :=
  match parse_value (2 * String.length s + 2) s with
  | Some (v, r) =>
      match skip_ws r with
      | EmptyString => Ok v
      | String _ _ => Throw SyntaxError
      end
  | None => Throw SyntaxError
  end.

Definition join (sep : string) (l : list string) : string :=
  match l with
  | [] => EmptyString
  | x :: l' => fold_left (fun acc y => acc +:+ sep +:+ y) l' x
  end.

Fixpoint JSON_stringify (v : value) : string :=
  match v with
  | VUndefined | VNull => "null"
  | VBool true => "true"
  | VBool false => "false"
  | VNum n => pretty n
  | VStr s => dq +:+ s +:+ dq
  | VArr l => "[" +:+ join "," (map JSON_stringify l) +:+ "]"
  | VObj fs =>
      "{" +:+ join ","
        ((fix members (fs : list (string * value)) : list string :=
            match fs with
            | [] => []
            | (k, x) :: fs' =>
                (dq +:+ k +:+ dq +:+ ":" +:+ JSON_stringify x) :: members fs'
            end) fs) +:+ "}"
  end.

Definition call_value (tc : ToolCall) : value :=
  VObj [("function",
         VObj [("name", VStr (tc_name tc)); ("arguments", tc_arguments tc)])].

(** The environment given by tables: the configuration, which servers
    connect, what each server lists, what each tool returns, and what the
    backend answers to its [n]-th call. *)
Definition mk_env
    (config : result (list (string * MCPServer)))
    (connects : string -> result unit)
    (listing : string -> result value)
    (tool : string -> string -> value -> result value)
    (model : nat -> list Message -> result Response) : Env :=
  mkEnv nat unit JSON_parse JSON_stringify JSON_stringify
        (fun tcs => JSON_stringify (VArr (map call_value tcs)))
        trim (fun u => Ok u)
        (fun w => (w, config))
        (fun w name _ => (w, connects name))
        (fun w name => (w, listing name))
        (fun w server name args => (w, tool server name args))
        (fun w _ msgs _ => (S w, model w msgs)).

End Fixture.

(** ** Scenarios

    Two servers: [s1] over the event-stream transport lists an object with
    a [tools] array holding [echo] and a nameless record; [s2] over the
    pipe transport lists a bare array holding [echo] again and [add].
    [echo] returns its arguments, [add] fails.  The scenarios differ in
    which servers connect and in what the backend answers. *)

Module Scenario.

Import Fixture.

Definition servers : list (string * MCPServer) :=
  [("s1", mkServer "sse" (Some "http://localhost:8000/sse") None None None);
   ("s2", mkServer "stdio" None (Some "uvx") (Some ["mcp-server"]) None)].

Definition listing (server : string) : result value :=
  if String.eqb server "s1" then
    Ok (VObj [("tools",
               VArr [VObj [("name", VStr "echo"); ("description", VStr "first")];
                     VObj [("title", VStr "nameless")]])])
  else
    Ok (VArr [VObj [("name", VStr "echo"); ("description", VStr "second")];
              VObj [("name", VStr "add"); ("inputSchema", VObj [])]]).

Definition tool (server name : string) (args : value) : result value :=
  if String.eqb name "echo" then Ok args else Throw (Err "overflow").

Definition accepts (server : string) : result unit := Ok tt.

Definition second_refuses (server : string) : result unit :=
  if String.eqb server "s2" then Throw (Err "refused") else Ok tt.

Definition text_part (s : string) : Part :=
  mkPart (Some (mkPartMessage (Some s) None)).

Definition calls_part (tcs : list ToolCall) : Part :=
  mkPart (Some (mkPartMessage None (Some tcs))).

(** A backend that answers every call with the same parts. *)
Definition constant (ps : list Part) (n : nat) (msgs : list Message)
  : result Response :=
  Ok (mkResponse ps None).

Definition a1 : string := "{" +:+ dq +:+ "a" +:+ dq +:+ ":1}".

Definition says_hello : list Part :=
  [text_part "Hello"; text_part EmptyString; mkPart None; text_part ", world"].

Definition calls_echo : list Part :=
  [text_part "Looking"; calls_part [mkToolCall "echo" (VStr (" " +:+ a1))]].


Definition calls_echo_then_ghost : list Part :=
  [calls_part [mkToolCall "echo" (VObj []); mkToolCall "ghost" (VObj [])]].

Definition calls_echo_unparsable : list Part :=
  [calls_part [mkToolCall "echo" (VObj []);
               mkToolCall "echo" (VStr "{a:1}");
               mkToolCall "echo" (VObj [])]].

Definition env_of (connects : string -> result unit) (ps : list Part) : Env :=
  mk_env (Ok servers) connects listing tool (constant ps).

Definition hello : Env := env_of accepts says_hello.
Definition looping : Env := env_of accepts calls_echo.
Definition mixed : Env := env_of accepts calls_echo_then_ghost.
Definition unparsable : Env := env_of accepts calls_echo_unparsable.
Definition refusing : Env := env_of second_refuses says_hello.

(** The user's message, alone in the store, in the caller's list. *)
Definition question : Message :=
  mkMessage (Some "user") None "What is the weather?" None.

(** An initialized client with the caller's list at location [0]. *)
Definition ready (ps : list Part) : state (env_of accepts ps) :=
  let e := env_of accepts ps in
  with_arrays e [[0]]
    (with_objects e [question] (fst (initialize e (new_MCPClient e 0)))).

(** The runs of [chat] on the caller's list, one per backend. *)
Definition hello_run := chat hello tt 0 (ready says_hello).
Definition looping_run := chat looping tt 0 (ready calls_echo).
Definition mixed_run := chat mixed tt 0 (ready calls_echo_then_ghost).
Definition unparsable_run :=
  chat unparsable tt 0 (ready calls_echo_unparsable).

(** The initialization when the second server refuses. *)
Definition refused_run := initialize refusing (new_MCPClient refusing 0).

(** A fresh client with both servers connected, before the listing. *)
Definition connected : state hello :=
  with_clients hello ["s1"; "s2"] (new_MCPClient hello 0).

(** One call of [add] on the initialized client. *)
Definition add_run :=
  executeToolCall hello 0 true (mkToolCall "add" (VObj [])) (ready says_hello).

End Scenario.


(** ** Vocabulary of the properties *)

Section Vocabulary.

Variable env : Env.

(** The servers answer successive listing calls with these values. *)
Inductive lists : W env -> list string -> list (string * value) -> W env -> Prop :=
| lists_nil w : lists w [] [] w
| lists_cons w s v w1 ss vs w2 :
    listTools env w s = (w1, Ok v) ->
    lists w1 ss vs w2 ->
    lists w (s :: ss) ((s, v) :: vs) w2.

(** The body of the connection loop of [initialize]. *)
Definition connect_guarded (entry : string * MCPServer) : M env unit :=
  try_catch env (connect_server env (fst entry) (snd entry))
    (fun error =>
       throw env (Err ("Failed to connect to MCP server " +:+ fst entry
                       +:+ ": " +:+ message error))).

(** The servers of a list connect one after the other. *)
Inductive all_connect : state env -> list (string * MCPServer) -> state env -> Prop :=
| all_connect_nil st : all_connect st [] st
| all_connect_cons st name serverInfo st1 rest st2 :
    connect_server env name serverInfo st = (st1, Ok tt) ->
    all_connect st1 rest st2 ->
    all_connect st ((name, serverInfo) :: rest) st2.

(** The shapes of a listing named by the specification, each with the
    sequence of records it stands for. *)
Inductive tolerated_shape : value -> list value -> Prop :=
| shape_sequence l : tolerated_shape (VArr l) l
| shape_tools fs l :
    JS.lookup_field "tools" fs = VArr l ->
    tolerated_shape (VObj fs) l
| shape_result fs l :
    JS.isArray (JS.lookup_field "tools" fs) = false ->
    JS.lookup_field "result" fs = VArr l ->
    tolerated_shape (VObj fs) l
| shape_map fs :
    JS.isArray (JS.lookup_field "tools" fs) = false ->
    JS.isArray (JS.lookup_field "result" fs) = false ->
    tolerated_shape (VObj fs) (map snd fs).

(** Every record of every listing with the server that listed it, in
    listing order. *)
Definition records (listings : list (string * value)) : list (string * value) :=
  flat_map (fun l => map (pair (fst l)) (tools_array (snd l))) listings.

(** A record registers under key [k]. *)
Definition registers_as (k : value) (r : string * value) : bool :=
  registrable (snd r) && JS.same_value_zero (JS.get (snd r) "name") k.

(** The last record that registers under [k]. *)
Definition last_registered (k : value) (rs : list (string * value))
  : option (string * value) :=
  last (filter (fun r => registers_as k r = true) rs).

Definition register_pure (m : JSMap.t ToolDescriptor) (r : string * value)
  : JSMap.t ToolDescriptor :=
  if registrable (snd r)
  then JSMap.set (JS.get (snd r) "name") (descriptor (fst r) (snd r)) m
  else m.

(** A tool call that neither throw of [executeToolCalls] stops: its
    arguments decode and its name is in the catalog. *)
Definition executable (catalog : JSMap.t ToolDescriptor) (tc : ToolCall) : Prop :=
  (exists v, decode_arguments env (tc_arguments tc) = Ok v)
  /\ (exists d, JSMap.get (VStr (tc_name tc)) catalog = Some d).

(** A tool call at which [executeToolCalls] throws [e]: its arguments do
    not decode, or its name is not in the catalog. *)
Definition stops (catalog : JSMap.t ToolDescriptor) (tc : ToolCall) (e : exn)
  : Prop :=
  decode_arguments env (tc_arguments tc) = Throw e
  \/ ((exists v, decode_arguments env (tc_arguments tc) = Ok v)
      /\ JSMap.get (VStr (tc_name tc)) catalog = None
      /\ e = Err ("MCP tool " +:+ tc_name tc +:+ " not found")).

(** A tool call whose name is in the catalog. *)
Definition resolvable (catalog : JSMap.t ToolDescriptor) (tc : ToolCall) : Prop :=
  exists d, JSMap.get (VStr (tc_name tc)) catalog = Some d.

(** What the [try] block of a resolved call obtains: the server's answer,
    or the error of the missing client. *)
Definition dispatch (st : state env) (d : ToolDescriptor) (name : string)
    (args : value) : W env * result value :=
  if existsb (String.eqb (td_serverName d)) (clients env st)
  then callTool env (world env st) (td_serverName d) name args
  else (world env st,
        Throw (Err ("Client for server " +:+ td_serverName d +:+ " not found"))).

Definition dispatch_events (st : state env) (d : ToolDescriptor)
    (name : string) (args : value) : list event :=
  if existsb (String.eqb (td_serverName d)) (clients env st)
  then [EvCallTool (td_serverName d) name args]
  else [].

(** The tool-role message and the annotation of a dispatch result. *)
Definition result_message (name : string) (r : result value) : Message :=
  match r with
  | Ok v => tool_message name (JSON_stringify env v)
  | Throw e =>
      tool_message name (JSON_stringify env (tool_error_payload name e))
  end.

Definition result_block (name : string) (r : result value) : string :=
  match r with
  | Ok v => tool_result_block env name v
  | Throw e => tool_error_block env name e
  end.

(** The state after a resolved call. *)
Definition after_tool_call (st : state env) (messages : loc)
    (controller : bool) (d : ToolDescriptor) (name : string) (args : value)
  : state env :=
  let out := dispatch st d name args in
  let x := length (objects env st) in
  let m := result_message name (snd out) in
  mkState env (fst out) (clients env st) (connectedServers env st)
    (mcpToolMap env st)
    (<[messages := default [] (arrays env st !! messages) ++ [x]]>
       (arrays env st))
    (objects env st ++ [m])
    (status env st)
    (log env st ++ dispatch_events st d name args
       ++ (if controller then [EvEnqueue (result_block name (snd out))] else [])
       ++ [EvPush messages x m]).

(** The effect of one streamed part on the pending message. *)
Definition part_content (part : Part) : option string :=
  match part_message part with
  | Some pm =>
      match pm_content pm with
      | Some content => if String.eqb content EmptyString then None else Some content
      | None => None
      end
  | None => None
  end.

Definition part_tool_calls (part : Part) : option (list ToolCall) :=
  match part_message part with
  | Some pm => pm_tool_calls pm
  | None => None
  end.

Definition received_part (m : Message) (part : Part) : Message :=
  let m1 := match part_content part with
            | Some content => append_content content m
            | None => m
            end in
  match part_tool_calls part with
  | Some tcs => set_tool_calls tcs m1
  | None => m1
  end.

Definition received (ps : list Part) (m : Message) : Message :=
  fold_left received_part ps m.

(** The text chunks of a response, in order. *)
Definition chunks (ps : list Part) : list string := omap part_content ps.

Definition new_message : Message := mkMessage None None EmptyString (Some []).

(** The tool calls a response ends with. *)
Definition final_calls (ps : list Part) : list ToolCall :=
  default [] (msg_tool_calls (received ps new_message)).

(** The backend answers every call with a complete response whose tool
    calls satisfy [P]. *)
Definition backend_always (settings : ChatSettings env)
    (tools : option (list OllamaTool)) (P : list ToolCall -> Prop) : Prop :=
  forall w msgs, exists w' resp,
    ollama_chat env w settings msgs tools = (w', Ok resp)
    /\ failure resp = None
    /\ P (final_calls (parts resp)).

(** [allTools.length > 0 ? allTools : undefined]. *)
Definition backend_tools (allTools : list OllamaTool) : option (list OllamaTool) :=
  if (0 <? length allTools)%nat then Some allTools else None.

(** The state when a response has been streamed into a fresh message and
    the message pushed. *)
Definition after_response (st : state env) (cur : loc) (w' : W env)
    (resp : Response) : state env :=
  let x := length (objects env st) in
  let m := received (parts resp) new_message in
  mkState env w' (clients env st) (connectedServers env st) (mcpToolMap env st)
    (<[cur := default [] (arrays env st !! cur) ++ [x]]> (arrays env st))
    (objects env st ++ [m])
    (status env st)
    (log env st ++ [EvChat (conversation env st cur)]
       ++ map EvEnqueue (chunks (parts resp)) ++ [EvPush cur x m]).

(** The same state when the tool-call annotation has been emitted and
    appended to the pushed message. *)
Definition after_annotation (st : state env) (cur : loc) (w' : W env)
    (resp : Response) : state env :=
  let x := length (objects env st) in
  let m := received (parts resp) new_message in
  let block := tool_calls_block env (final_calls (parts resp)) in
  mkState env w' (clients env st) (connectedServers env st) (mcpToolMap env st)
    (<[cur := default [] (arrays env st !! cur) ++ [x]]> (arrays env st))
    (objects env st ++ [append_content block m])
    (status env st)
    (log env st ++ [EvChat (conversation env st cur)]
       ++ map EvEnqueue (chunks (parts resp)) ++ [EvPush cur x m]
       ++ [EvEnqueue block]).

(** The text of a response, its chunks put together. *)
Definition text (ps : list Part) : string :=
  fold_right String.append EmptyString (chunks ps).

(** The state in which the loop of [chat] starts: a fresh readable stream
    and the caller's messages copied into a new array. *)
Definition started (st : state env) (messages : loc) : state env :=
  with_arrays env
    (arrays env st ++ [default [] (arrays env st !! messages)])
    (with_status env Readable st).

(** Every array and every object of [s0] is in [st], unchanged. *)
Definition store_preserved (s0 st : state env) : Prop :=
  (forall a, a < length (arrays env s0) ->
             arrays env st !! a = arrays env s0 !! a)
  /\ (forall l, l < length (objects env s0) ->
                objects env st !! l = objects env s0 !! l)
  /\ length (arrays env s0) <= length (arrays env st)
  /\ length (objects env s0) <= length (objects env st).

Definition is_chat (ev : event) : bool :=
  match ev with EvChat _ => true | _ => false end.

(** The number of calls made to the model backend. *)
Definition model_calls (l : list event) : nat :=
  length (filter (fun ev => is_chat ev = true) l).



(** What is serialized into the message of a call of [name] that
    obtained [r]: the result, or the description of the error. *)
Definition outcome (name : string) (r : result value) : value :=
  match r with
  | Ok v => v
  | Throw e =>
      VObj [("error",
             VStr ("Failed to execute tool " +:+ name +:+ ": " +:+ message e))]
  end.


End Vocabulary.

Section ServiceVocabulary.

Variable env : Env.

(** The fields of the client and the state of the stream are the same. *)
Definition same_client (st st' : state env) : Prop :=
  mcpToolMap env st' = mcpToolMap env st
  /\ clients env st' = clients env st
  /\ connectedServers env st' = connectedServers env st
  /\ status env st' = status env st.

(** The catalog is keyed by the names of its descriptors, the names are
    truthy, no name has two entries, and every descriptor belongs to a
    server that has a client. *)
Definition catalog_ok (st : state env) : Prop :=
  (forall e, e ∈ mcpToolMap env st ->
     td_name (snd e) = fst e
     /\ JS.truthy (fst e) = true
     /\ td_serverName (snd e) ∈ clients env st)
  /\ (forall k, length (JSMap.entries_at k (mcpToolMap env st)) <= 1).

(** The list at [a] exists and holds message objects of the store. *)
Definition valid_conversation (st : state env) (a : loc) : Prop :=
  exists l, arrays env st !! a = Some l
            /\ Forall (fun x => x < length (objects env st)) l.

Definition is_enqueue (ev : event) : bool :=
  match ev with EvEnqueue _ => true | _ => false end.

Definition is_push (ev : event) : bool :=
  match ev with EvPush _ _ _ => true | _ => false end.

(** The chunks passed to [controller.enqueue], in the order of the calls. *)
Fixpoint enqueued (l : list event) : list string :=
  match l with
  | [] => []
  | EvEnqueue chunk :: l' => chunk :: enqueued l'
  | _ :: l' => enqueued l'
  end.

(** The messages pushed, in order. *)
Fixpoint pushed_messages (l : list event) : list Message :=
  match l with
  | [] => []
  | EvPush _ _ m :: l' => m :: pushed_messages l'
  | _ :: l' => pushed_messages l'
  end.

(** The servers to which a connection was attempted, in order. *)
Fixpoint connections (l : list event) : list string :=
  match l with
  | [] => []
  | EvConnect server :: l' => server :: connections l'
  | _ :: l' => connections l'
  end.

(** The servers asked for their tools, in order. *)
Fixpoint listings_asked (l : list event) : list string :=
  match l with
  | [] => []
  | EvListTools server :: l' => server :: listings_asked l'
  | _ :: l' => listings_asked l'
  end.

(** The server calls made, in order. *)
Fixpoint server_calls (l : list event) : list (string * string * value) :=
  match l with
  | [] => []
  | EvCallTool server name args :: l' => (server, name, args) :: server_calls l'
  | _ :: l' => server_calls l'
  end.

(** The conversations sent to the backend, in order. *)
Fixpoint conversations_sent (l : list event) : list (list Message) :=
  match l with
  | [] => []
  | EvChat messages :: l' => messages :: conversations_sent l'
  | _ :: l' => conversations_sent l'
  end.

(** The events of a request: no connection, no listing. *)
Definition request_events (evs : list event) : Prop :=
  connections evs = [] /\ listings_asked evs = [].

(** The message the configuration check of [connect_server] throws for an
    entry, before any connection is attempted. *)
Definition config_error (name : string) (serverInfo : MCPServer)
  : option string :=
  if String.eqb (srv_type serverInfo) "sse" then
    match srv_url serverInfo with
    | Some url =>
        if String.eqb url EmptyString
        then Some ("URL is required for SSE server: " +:+ name)
        else None
    | None => Some ("URL is required for SSE server: " +:+ name)
    end
  else if String.eqb (srv_type serverInfo) "stdio" then
    match srv_command serverInfo, srv_args serverInfo with
    | Some command, Some _ =>
        if String.eqb command EmptyString
        then Some ("Command and args are required for stdio server: " +:+ name)
        else None
    | _, _ => Some ("Command and args are required for stdio server: " +:+ name)
    end
  else Some ("Unsupported server type: " +:+ srv_type serverInfo).

End ServiceVocabulary.

(** ** More scenarios

    The same two servers with a backend whose response breaks, a backend
    that cannot be reached, a configuration with an entry that lacks its
    URL, and a second server whose listing call times out. *)

Module Cases.

Import Fixture Scenario.

Definition broken_response (n : nat) (msgs : list Message) : result Response :=
  Ok (mkResponse says_hello (Some (Err "connection reset"))).

Definition unreachable_backend (n : nat) (msgs : list Message)
  : result Response :=
  Throw (Err "fetch failed").

Definition broken : Env :=
  mk_env (Ok servers) accepts listing tool broken_response.

Definition unreachable : Env :=
  mk_env (Ok servers) accepts listing tool unreachable_backend.

Definition s1_entry : string * MCPServer :=
  ("s1", mkServer "sse" (Some "http://localhost:8000/sse") None None None).

Definition s2_entry : string * MCPServer :=
  ("s2", mkServer "stdio" None (Some "uvx") (Some ["mcp-server"]) None).

Definition s3_without_url : MCPServer := mkServer "sse" None None None None.

Definition misconfigured : Env :=
  mk_env (Ok [s1_entry; ("s3", s3_without_url); s2_entry]) accepts listing
    tool (constant says_hello).

Definition second_listing_fails (server : string) : result value :=
  if String.eqb server "s2" then Throw (Err "timeout") else listing server.

Definition unlisted : Env :=
  mk_env (Ok servers) accepts second_listing_fails tool (constant says_hello).

Definition s1_listing : value :=
  VObj [("tools",
         VArr [VObj [("name", VStr "echo"); ("description", VStr "first")];
               VObj [("title", VStr "nameless")]])].

Definition echo_descriptor : ToolDescriptor :=
  mkTool (VStr "echo") (VStr "second") VUndefined "s2".

(** The store of a request: the question in the caller's list at [0]. *)
Definition with_question (e : Env) (st : state e) : state e :=
  with_arrays e [[0]] (with_objects e [question] st).

(** An initialized client of [e] with the caller's list. *)
Definition ready_in (e : Env) (w : W e) : state e :=
  with_question e (fst (initialize e (new_MCPClient e w))).

(** A process of [e] before its first request. *)
Definition fresh_process (e : Env) (w : W e) : process e :=
  mkProcess e false (with_question e (new_MCPClient e w)).

(** The loop of [chat] about to start on the backend that always calls
    [echo]. *)
Definition looping_start : state looping :=
  started looping (ready calls_echo) 0.

Definition echo_and_add : list ToolCall :=
  [mkToolCall "echo" (VObj []); mkToolCall "add" (VObj [])].

(** A response that announces tool calls twice, with text in between. *)
Definition announces_twice : list Part :=
  [calls_part [mkToolCall "echo" (VObj [])]; text_part "Adding";
   calls_part [mkToolCall "add" (VObj [])]; text_part "."].

(** The store of a turn: the question and the message being received. *)
Definition receiving : state hello :=
  with_objects hello [question; new_message] (ready says_hello).

(** The error of reading [length] of [undefined]. *)
Definition no_length : exn :=
  Err "Cannot read properties of undefined (reading 'length')".

(** The client of [hello] after its initialization. *)
Definition initialized : state hello :=
  fst (initialize hello (new_MCPClient hello 0)).

End Cases.

(** ** Properties *)

Section Properties.

Variable env : Env.

Abbreviation state := (state env).
Abbreviation M := (M env).

(** *** States *)

Lemma with_mcpToolMap_id (st : state) :
  with_mcpToolMap env (mcpToolMap env st) st = st.
Proof. by destruct st. Qed.

(** *** [SameValueZero] and the map *)

Lemma same_value_zero_eq a b : JS.same_value_zero a b = true -> a = b.
Proof.
  destruct a, b; simpl; try discriminate; try done.
  - intros H. apply Bool.eqb_prop in H. by subst.
  - intros H. apply Z.eqb_eq in H. by subst.
  - intros H. apply String.eqb_eq in H. by subst.
Qed.

Lemma same_value_zero_trans a b c :
  JS.same_value_zero a b = true -> JS.same_value_zero b c = true ->
  JS.same_value_zero a c = true.
Proof. intros H1 H2. apply same_value_zero_eq in H2. by subst. Qed.

Lemma same_value_zero_sym a b :
  JS.same_value_zero a b = true -> JS.same_value_zero b a = true.
Proof. intros H. pose proof (same_value_zero_eq _ _ H). by subst. Qed.

Lemma same_value_zero_left a b c :
  JS.same_value_zero a b = true ->
  JS.same_value_zero a c = JS.same_value_zero b c.
Proof. intros H. apply same_value_zero_eq in H. by subst. Qed.

Section MapLemmas.
Context {V : Type}.
Implicit Types (m : JSMap.t V) (k q : value) (v : V).

Lemma get_set_same k q v m :
  JS.same_value_zero k q = true -> JSMap.get q (JSMap.set k v m) = Some v.
Proof.
  intros Hkq. induction m as [|[k' v'] m IH]; simpl.
  - by rewrite Hkq.
  - destruct (JS.same_value_zero k' k) eqn:Hk; simpl.
    + by rewrite (same_value_zero_trans _ _ _ Hk Hkq).
    + destruct (JS.same_value_zero k' q) eqn:Hq; [|done].
      apply same_value_zero_sym in Hkq.
      by rewrite (same_value_zero_trans _ _ _ Hq Hkq) in Hk.
Qed.

Lemma get_set_other k q v m :
  JS.same_value_zero k q = false -> JSMap.get q (JSMap.set k v m) = JSMap.get q m.
Proof.
  intros Hkq. induction m as [|[k' v'] m IH]; simpl.
  - by rewrite Hkq.
  - destruct (JS.same_value_zero k' k) eqn:Hk; simpl.
    + by rewrite (same_value_zero_left _ _ q Hk), Hkq.
    + by rewrite IH.
Qed.

Lemma entries_at_cons q k' v' m :
  JSMap.entries_at q ((k', v') :: m) =
  if JS.same_value_zero k' q then (k', v') :: JSMap.entries_at q m
  else JSMap.entries_at q m.
Proof.
  unfold JSMap.entries_at. rewrite filter_cons. simpl.
  destruct (JS.same_value_zero k' q); by case_decide.
Qed.

Lemma entries_at_set_fresh k q v m :
  JS.same_value_zero k q = false ->
  JSMap.entries_at q m = [] ->
  JSMap.entries_at q (JSMap.set k v m) = [].
Proof.
  intros Hkq. induction m as [|[k' v'] m IH]; cbn [JSMap.set].
  - intros _. by rewrite entries_at_cons, Hkq.
  - rewrite entries_at_cons.
    destruct (JS.same_value_zero k' q) eqn:Hq; [done|]. intros Hnil.
    destruct (JS.same_value_zero k' k); rewrite entries_at_cons, Hq; auto.
Qed.

Lemma entries_at_set_length k q v m :
  length (JSMap.entries_at q m) <= 1 ->
  length (JSMap.entries_at q (JSMap.set k v m)) <= 1.
Proof.
  induction m as [|[k' v'] m IH]; cbn [JSMap.set].
  - intros _. rewrite entries_at_cons.
    destruct (JS.same_value_zero k q); simpl; lia.
  - rewrite entries_at_cons. intros Hlen.
    destruct (JS.same_value_zero k' k) eqn:Hk; rewrite entries_at_cons.
    + destruct (JS.same_value_zero k' q); simpl in *; lia.
    + destruct (JS.same_value_zero k' q) eqn:Hq; [|by apply IH].
      assert (JSMap.entries_at q m = []) as Hnil.
      { destruct (JSMap.entries_at q m); [done | simpl in Hlen; lia]. }
      assert (JS.same_value_zero k q = false) as Hkq.
      { destruct (JS.same_value_zero k q) eqn:Hkq; [|done].
        apply same_value_zero_sym in Hkq.
        by rewrite (same_value_zero_trans _ _ _ Hq Hkq) in Hk. }
      rewrite (entries_at_set_fresh _ _ _ _ Hkq Hnil). simpl. lia.
Qed.

Lemma entries_at_get q m :
  length (JSMap.entries_at q m) <= 1 ->
  length (JSMap.entries_at q m) =
  match JSMap.get q m with Some _ => 1 | None => 0 end.
Proof.
  induction m as [|[k' v'] m IH]; [done|].
  rewrite entries_at_cons. cbn [JSMap.get].
  destruct (JS.same_value_zero k' q); [|done].
  simpl. lia.
Qed.

End MapLemmas.

(** *** The catalog *)

Lemma set_entry_origin {V} (k : value) (v : V) m e :
  e ∈ JSMap.set k v m -> e ∈ m \/ e = (k, v).
Proof.
  induction m as [|[k' v'] m IH]; cbn [JSMap.set].
  - intros ->%list_elem_of_singleton. by right.
  - destruct (JS.same_value_zero k' k) eqn:Hk.
    + intros [-> | H]%elem_of_cons.
      * right. by rewrite (same_value_zero_eq _ _ Hk).
      * left. apply elem_of_cons. by right.
    + intros [-> | H]%elem_of_cons; [left; apply elem_of_cons; by left|].
      destruct (IH H) as [?| ->]; [left; apply elem_of_cons; by right | by right].
Qed.

Lemma last_registered_cons k r rs :
  last_registered k (r :: rs) =
  match last_registered k rs with
  | Some r' => Some r'
  | None => if registers_as k r then Some r else None
  end.
Proof.
  unfold last_registered. rewrite filter_cons.
  destruct (registers_as k r); case_decide; try done.
  - rewrite last_cons. by destruct (last _).
  - by destruct (last _).
Qed.

Lemma get_fold_register k rs m :
  JSMap.get k (fold_left register_pure rs m) =
  match last_registered k rs with
  | Some r => Some (descriptor (fst r) (snd r))
  | None => JSMap.get k m
  end.
Proof.
  revert m. induction rs as [|r rs IH]; intros m; [done|].
  cbn [fold_left]. rewrite IH, last_registered_cons.
  destruct (last_registered k rs); [done|].
  unfold register_pure, registers_as.
  destruct (registrable (snd r)); cbn [andb]; [|done].
  destruct (JS.same_value_zero (JS.get (snd r) "name") k) eqn:Hk.
  - by apply get_set_same.
  - by apply get_set_other.
Qed.

Lemma entries_fold_register q rs m :
  length (JSMap.entries_at q m) <= 1 ->
  length (JSMap.entries_at q (fold_left register_pure rs m)) <= 1.
Proof.
  revert m. induction rs as [|r rs IH]; intros m Hm; [done|].
  cbn [fold_left]. apply IH. unfold register_pure.
  destruct (registrable (snd r)); [|done]. by apply entries_at_set_length.
Qed.

Lemma fold_register_origin rs m e :
  e ∈ fold_left register_pure rs m ->
  e ∈ m \/
  exists r, r ∈ rs /\ registrable (snd r) = true /\
            e = (JS.get (snd r) "name", descriptor (fst r) (snd r)).
Proof.
  revert m. induction rs as [|r rs IH]; intros m; [by left|].
  cbn [fold_left]. intros H. destruct (IH _ H) as [Hm | (r' & Hr' & Hreg & ->)].
  - unfold register_pure in Hm.
    destruct (registrable (snd r)) eqn:Hreg; [|by left].
    destruct (set_entry_origin _ _ _ _ Hm) as [?| ->]; [by left|].
    right. exists r. split; [apply elem_of_cons; by left | done].
  - right. exists r'. split; [apply elem_of_cons; by right | done].
Qed.

Lemma tools_array_shape v rs : tolerated_shape v rs -> tools_array v = rs.
Proof.
  destruct 1 as [l | fs l Ht | fs l Ht Hr | fs Ht Hr]; unfold tools_array; cbn.
  - done.
  - by rewrite Ht.
  - rewrite Hr. cbn. rewrite Ht. by rewrite andb_false_r.
  - rewrite Ht, Hr. by rewrite !andb_false_r.
Qed.

Lemma for_each_register_tool s rs (st : state) :
  for_each env rs (register_tool env s) st =
  (with_mcpToolMap env
     (fold_left register_pure (map (pair s) rs) (mcpToolMap env st)) st,
   Ok tt).
Proof.
  revert st. induction rs as [|r rs IH]; intros st; cbn [for_each map fold_left].
  - unfold ret. by rewrite with_mcpToolMap_id.
  - unfold bind at 1. unfold register_tool at 1, register_pure at 2. cbn [snd fst].
    destruct (registrable r).
    + unfold modify. rewrite IH. by destruct st.
    + unfold ret. by rewrite IH.
Qed.

Lemma for_each_list_server_tools w cs listings w' :
  lists env w cs listings w' ->
  forall st : state, world env st = w ->
  exists st',
    for_each env cs (list_server_tools env) st = (st', Ok tt)
    /\ mcpToolMap env st' =
       fold_left register_pure (records listings) (mcpToolMap env st)
    /\ world env st' = w'
    /\ clients env st' = clients env st.
Proof.
  induction 1 as [w | w s v w1 ss vs w2 Hlist Hrest IH]; intros st Hw.
  - exists st. by rewrite <- Hw.
  - cbn [for_each]. unfold bind at 1. unfold list_server_tools at 1.
    unfold bind, emit, modify, call_world. cbn.
    rewrite Hw, Hlist. rewrite for_each_register_tool.
    edestruct IH as (st' & Hrun & Hmap & Hw' & Hcl); [|rewrite Hrun].
    { by destruct st. }
    exists st'. split; [done|]. rewrite Hmap, Hw', Hcl.
    unfold records. cbn [flat_map fst snd]. rewrite fold_left_app.
    by destruct st.
Qed.

(** C5. When every connected server answers its listing call, in whatever
    shape, [initializeTools] on an empty catalog returns normally; each of
    the shapes named by the specification is coerced to the records it
    stands for; looking a name up in the catalog gives the descriptor built
    from the last record, in server and listing order, registering under
    that name (a later registration replaces an earlier one); a name that
    is registered has exactly one entry, any other none; and every entry
    comes from a record that is an object with a name. *)
Theorem initializeTools_catalog (st : state) listings w' :
  lists env (world env st) (clients env st) listings w' ->
  mcpToolMap env st = [] ->
  let run := initializeTools env st in
  snd run = Ok tt
  /\ (forall v rs, tolerated_shape v rs -> tools_array v = rs)
  /\ (forall k,
        JSMap.get k (mcpToolMap env (fst run)) =
        option_map (fun r => descriptor (fst r) (snd r))
                   (last_registered k (records listings)))
  /\ (forall k,
        length (JSMap.entries_at k (mcpToolMap env (fst run))) =
        match JSMap.get k (mcpToolMap env (fst run)) with
        | Some _ => 1
        | None => 0
        end)
  /\ (forall e, e ∈ mcpToolMap env (fst run) ->
        exists r, r ∈ records listings
                  /\ registrable (snd r) = true
                  /\ JS.truthy (JS.get (snd r) "name") = true
                  /\ e = (JS.get (snd r) "name", descriptor (fst r) (snd r))).
Proof.
  intros Hlists Hempty.
  destruct (for_each_list_server_tools _ _ _ _ Hlists st eq_refl)
    as (st' & Hrun & Hmap & _ & _).
  assert (initializeTools env st = (st', Ok tt)) as Hinit.
  { unfold initializeTools, try_catch, bind, gets. by rewrite Hrun. }
  cbn zeta. rewrite Hinit. cbn [fst snd]. rewrite Hmap, Hempty.
  split; [done|]. split; [apply tools_array_shape|].
  split; [|split].
  - intros k. rewrite get_fold_register.
    by destruct (last_registered k (records listings)).
  - intros k. apply entries_at_get, entries_fold_register. simpl. lia.
  - intros e He. destruct (fold_register_origin _ _ _ He) as [Hnil | (r & Hr & Hreg & ->)].
    + by apply elem_of_nil in Hnil.
    + exists r. repeat split; try done.
      unfold registrable in Hreg. by apply andb_true_iff in Hreg as [_ ?].
Qed.

(** *** One tool call *)

Lemma lookup_snoc {A} (l : list A) (x : A) : (l ++ [x]) !! length l = Some x.
Proof. by rewrite list_lookup_middle. Qed.

Lemma list_insert_snoc {A} (l : list A) (x y : A) :
  <[length l := y]> (l ++ [x]) = l ++ [y].
Proof. rewrite insert_app_r_alt by done. by rewrite Nat.sub_diag. Qed.

Lemma executeToolCall_decode_throws a c tc e (st : state) :
  decode_arguments env (tc_arguments tc) = Throw e ->
  executeToolCall env a c tc st = (st, Throw e).
Proof.
  intros Hdec. unfold executeToolCall, bind, lift_result. by rewrite Hdec.
Qed.

Lemma executeToolCall_unknown a c tc v (st : state) :
  decode_arguments env (tc_arguments tc) = Ok v ->
  JSMap.get (VStr (tc_name tc)) (mcpToolMap env st) = None ->
  executeToolCall env a c tc st =
  (st, Throw (Err ("MCP tool " +:+ tc_name tc +:+ " not found"))).
Proof.
  intros Hdec Hget. unfold executeToolCall, bind, lift_result, gets.
  by rewrite Hdec, Hget.
Qed.

Lemma executeToolCall_resolved a c tc v d (st : state) :
  decode_arguments env (tc_arguments tc) = Ok v ->
  JSMap.get (VStr (tc_name tc)) (mcpToolMap env st) = Some d ->
  executeToolCall env a c tc st =
  (after_tool_call env st a c d (tc_name tc) v, Ok tt).
Proof.
  intros Hdec Hget.
  unfold executeToolCall, after_tool_call, dispatch, dispatch_events.
  unfold bind at 1. unfold lift_result. rewrite Hdec.
  unfold bind at 1. unfold gets at 1. rewrite Hget.
  unfold try_catch, bind, gets, call_tool, push_new, push, alloc_object,
    read_object, enqueue, emit, modify, call_world, bind, gets, ret, throw.
  destruct st as [w cl cs cat arrs objs stat lg]. cbn.
  destruct (existsb (String.eqb (td_serverName d)) cl); cbn.
  - destruct (callTool env w (td_serverName d) (tc_name tc) v) as [w' [r|e]];
      destruct c; cbn; rewrite lookup_snoc; cbn;
      by rewrite <- ?app_assoc.
  - destruct c; cbn; rewrite lookup_snoc; cbn; by rewrite <- ?app_assoc.
Qed.

(** Every tool call is in one of the three cases. *)
Lemma executeToolCall_cases a c tc (st : state) :
  (exists e, decode_arguments env (tc_arguments tc) = Throw e
             /\ executeToolCall env a c tc st = (st, Throw e))
  \/ (exists v, decode_arguments env (tc_arguments tc) = Ok v
                /\ JSMap.get (VStr (tc_name tc)) (mcpToolMap env st) = None
                /\ executeToolCall env a c tc st =
                   (st, Throw (Err ("MCP tool " +:+ tc_name tc +:+ " not found"))))
  \/ (exists v d, decode_arguments env (tc_arguments tc) = Ok v
                  /\ JSMap.get (VStr (tc_name tc)) (mcpToolMap env st) = Some d
                  /\ executeToolCall env a c tc st =
                     (after_tool_call env st a c d (tc_name tc) v, Ok tt)).
Proof.
  destruct (decode_arguments env (tc_arguments tc)) as [v|e] eqn:Hdec.
  - destruct (JSMap.get (VStr (tc_name tc)) (mcpToolMap env st)) as [d|] eqn:Hget.
    + right; right. exists v, d. eauto using executeToolCall_resolved.
    + right; left. exists v. eauto using executeToolCall_unknown.
  - left. exists e. eauto using executeToolCall_decode_throws.
Qed.

(** *** A list of tool calls *)

Lemma executeToolCalls_nil a c (st : state) :
  executeToolCalls env [] a c st = (st, Ok tt).
Proof. done. Qed.

Lemma executeToolCalls_cons tc tcs a c (st : state) :
  executeToolCalls env (tc :: tcs) a c st =
  match executeToolCall env a c tc st with
  | (st', Ok _) => executeToolCalls env tcs a c st'
  | (st', Throw e) => (st', Throw e)
  end.
Proof. done. Qed.

Lemma model_calls_app l1 l2 :
  model_calls (l1 ++ l2) = model_calls l1 + model_calls l2.
Proof. unfold model_calls. by rewrite filter_app, length_app. Qed.


Lemma model_calls_cons ev l :
  model_calls (ev :: l) = (if is_chat ev then 1 else 0) + model_calls l.
Proof.
  unfold model_calls. rewrite filter_cons.
  destruct (is_chat ev); by case_decide.
Qed.


Lemma result_message_tool name r :
  exists content, result_message env name r = tool_message name content.
Proof. destruct r; cbn; eauto. Qed.

Lemma model_calls_after_tool_call (st : state) a c d name v :
  model_calls (log env (after_tool_call env st a c d name v)) =
  model_calls (log env st).
Proof.
  unfold after_tool_call. cbn [log]. rewrite !model_calls_app.
  unfold dispatch_events.
  destruct (existsb _ _), c; rewrite ?model_calls_cons; cbn; lia.
Qed.

Lemma executeToolCalls_executable cat tcs a c (st : state) :
  mcpToolMap env st = cat ->
  Forall (executable env cat) tcs ->
  exists st',
    executeToolCalls env tcs a c st = (st', Ok tt)
    /\ mcpToolMap env st' = cat
    /\ clients env st' = clients env st
    /\ status env st' = status env st
    /\ model_calls (log env st') = model_calls (log env st).
Proof.
  intros Hcat Hall. revert st Hcat.
  induction Hall as [|tc tcs [[v Hdec] [d Hget]] _ IH]; intros st Hcat.
  - exists st. by rewrite executeToolCalls_nil.
  - rewrite executeToolCalls_cons.
    rewrite (executeToolCall_resolved a c tc v d st Hdec); [|by rewrite Hcat].
    destruct (IH (after_tool_call env st a c d (tc_name tc) v))
      as (st' & Hrun & ? & ? & ? & Hcalls); [done|].
    exists st'. rewrite Hrun. repeat split; try done.
    by rewrite Hcalls, model_calls_after_tool_call.
Qed.

Lemma executeToolCalls_stops cat pre tc rest e a c (st : state) :
  mcpToolMap env st = cat ->
  Forall (executable env cat) pre ->
  stops env cat tc e ->
  executeToolCalls env (pre ++ tc :: rest) a c st =
  (fst (executeToolCalls env pre a c st), Throw e).
Proof.
  intros Hcat Hpre Hstop. revert st Hcat.
  induction Hpre as [|p pre [[v Hdec] [d Hget]] _ IH]; intros st Hcat.
  - cbn [app]. rewrite executeToolCalls_cons, executeToolCalls_nil. cbn [fst].
    destruct Hstop as [Hthrow | ([v Hdec] & Hget & ->)].
    + by rewrite (executeToolCall_decode_throws _ _ _ _ _ Hthrow).
    + rewrite (executeToolCall_unknown _ _ _ v); by rewrite ?Hcat.
  - cbn [app]. rewrite !executeToolCalls_cons.
    rewrite (executeToolCall_resolved a c p v d st Hdec); [|by rewrite Hcat].
    by apply IH.
Qed.



(** The conversation of an array to which the locations of newly
    allocated objects have been pushed. *)
Lemma conversation_extended (st st' : state) a ms msgs :
  arrays env st !! a = Some ms ->
  Forall (fun l => l < length (objects env st)) ms ->
  arrays env st' !! a =
    Some (ms ++ seq (length (objects env st)) (length msgs)) ->
  objects env st' = objects env st ++ msgs ->
  conversation env st' a = conversation env st a ++ msgs.
Proof.
  intros Ha Hms Ha' Ho. unfold conversation. rewrite Ha, Ha', Ho.
  cbn [from_option id]. rewrite map_app. f_equal.
  - apply map_ext_Forall. eapply Forall_impl; [exact Hms|].
    intros l Hl. cbn beta in *. by rewrite lookup_app_l.
  - generalize (objects env st). clear. intros o. revert o.
    induction msgs as [|m msgs IH]; intros o; [done|].
    cbn [length seq map]. f_equal.
    + by rewrite list_lookup_middle.
    + specialize (IH (o ++ [m])). rewrite length_app, Nat.add_1_r in IH.
      by rewrite <- app_assoc in IH.
Qed.

(** The message pushed for a resolved call, field by field. *)
Lemma result_message_fields name r :
  result_message env name r =
  mkMessage (Some "tool") (Some name)
    (JSON_stringify env (outcome name r)) None.
Proof. by destruct r. Qed.


(** *** Streaming a response *)

Lemma receive_part_spec part x m (st : state) :
  objects env st !! x = Some m ->
  receive_part env x part st =
  (with_log env
     (log env st ++ match part_content part with
                    | Some c => [EvEnqueue c]
                    | None => []
                    end)
     (with_objects env (<[x := received_part m part]> (objects env st)) st),
   Ok tt).
Proof.
  intros Hm.
  assert (<[x := m]> (objects env st) = objects env st) as Hid
    by by apply list_insert_id.
  assert (x < length (objects env st)) as Hlt by by eapply lookup_lt_Some.
  unfold receive_part, received_part, part_content, part_tool_calls.
  destruct st as [w cl cs cat arrs objs stat lg]. cbn in *.
  destruct part as [[[[content|] [tcs|]]|]]; cbn;
    unfold bind, ret, enqueue, emit, modify_object, modify; cbn;
    try destruct (String.eqb content EmptyString); cbn;
    rewrite ?Hm, ?app_nil_r, ?Hid; cbn;
    rewrite ?list_lookup_insert_eq by done; cbn;
    rewrite ?list_insert_insert_eq, ?Hid; done.
Qed.

Lemma for_each_receive_part ps x m (st : state) :
  objects env st !! x = Some m ->
  for_each env ps (receive_part env x) st =
  (with_log env (log env st ++ map EvEnqueue (chunks ps))
     (with_objects env (<[x := received ps m]> (objects env st)) st),
   Ok tt).
Proof.
  revert m st. induction ps as [|part ps IH]; intros m st Hm.
  - cbn. unfold ret. rewrite app_nil_r, list_insert_id by done. by destruct st.
  - assert (x < length (objects env st)) as Hlt by by eapply lookup_lt_Some.
    cbn [for_each]. unfold bind at 1.
    rewrite (receive_part_spec part x m st Hm).
    rewrite (IH (received_part m part)).
    + destruct st as [w cl cs cat arrs objs stat lg]. cbn.
      rewrite list_insert_insert_eq. unfold chunks. cbn [omap].
      destruct (part_content part); cbn; by rewrite <- ?app_assoc, ?app_nil_r.
    + destruct st. cbn in *. by rewrite list_lookup_insert_eq.
Qed.

(** *** One iteration of the loop *)

Lemma call_model_spec settings cur allTools (st : state) :
  call_model env settings cur allTools st =
  (with_world env
     (fst (ollama_chat env (world env st) settings (conversation env st cur)
             (backend_tools allTools)))
     (with_log env (log env st ++ [EvChat (conversation env st cur)]) st),
   snd (ollama_chat env (world env st) settings (conversation env st cur)
          (backend_tools allTools))).
Proof.
  unfold call_model, bind, gets, emit, modify, call_world, backend_tools.
  destruct st as [w cl cs cat arrs objs stat lg]. cbn.
  by destruct (ollama_chat _ _ _ _ _).
Qed.

Lemma chat_loop_step fuel settings allTools cur i (st : state) w' resp :
  i < maxIterations ->
  ollama_chat env (world env st) settings (conversation env st cur)
    (backend_tools allTools) = (w', Ok resp) ->
  failure resp = None ->
  chat_loop env (S fuel) settings allTools cur i st =
  if (length (final_calls (parts resp)) =? 0)%nat
  then (after_response env st cur w' resp, Ok tt)
  else
    match executeToolCalls env (final_calls (parts resp)) cur true
            (after_annotation env st cur w' resp) with
    | (st', Ok _) => chat_loop env fuel settings allTools cur (i + 1) st'
    | (st', Throw e) => (st', Throw e)
    end.
Proof.
  intros Hi Hchat Hfail. cbn [chat_loop].
  apply Nat.ltb_lt in Hi. rewrite Hi.
  unfold bind at 1. rewrite call_model_spec, Hchat. cbn [fst snd].
  unfold bind at 1. unfold alloc_object at 1.
  unfold bind at 1. unfold receive at 1. unfold bind at 1.
  rewrite (for_each_receive_part _ _ new_message).
  2:{ destruct st; cbn. apply lookup_snoc. }
  rewrite Hfail. unfold ret at 1.
  unfold bind at 1. unfold push at 1. unfold bind at 1, modify at 1.
  unfold bind at 1, read_object at 1, gets at 1, emit at 1, modify at 1.
  unfold bind at 1, read_object at 1, gets at 1.
  destruct st as [w cl cs cat arrs objs stat lg]. cbn.
  rewrite list_insert_snoc, lookup_snoc. cbn.
  fold (final_calls (parts resp)).
  destruct (length (final_calls (parts resp)) =? 0)%nat eqn:Hlen.
  - unfold ret, after_response. cbn. by rewrite <- !app_assoc.
  - unfold bind at 1, enqueue at 1, emit at 1, modify at 1.
    unfold bind at 1, modify_object at 1, modify at 1. cbn.
    rewrite list_insert_snoc, lookup_snoc. cbn.
    unfold bind at 1. unfold after_annotation. cbn.
    by rewrite <- !app_assoc.
Qed.

(** *** [chat] *)

Lemma chat_unfold settings messages (st : state) :
  chat env settings messages st =
  match chat_loop env maxIterations settings
          (getOllamaTools (mcpToolMap env st)) (length (arrays env st)) 0
          (started env st messages) with
  | (st', Ok _) => (with_status env Closed st', Ok tt)
  | (st', Throw e) => (with_status env (Errored e) st', Ok tt)
  end.
Proof.
  unfold chat, started, bind, try_catch, gets, modify, read_array, gets,
    alloc_array, controller_close, controller_error, modify.
  destruct st as [w cl cs cat arrs objs stat lg]. cbn -[chat_loop].
  by destruct (chat_loop _ _ _ _ _ _ _) as [st' [[]|e]].
Qed.

Lemma conversation_started (st : state) messages :
  conversation env (started env st messages) (length (arrays env st)) =
  conversation env st messages.
Proof.
  unfold conversation, started. destruct st; cbn. by rewrite lookup_snoc.
Qed.

Lemma string_app_nil_r (s : string) : s +:+ EmptyString = s.
Proof.
  induction s as [|c s IH]; [done|]. exact (f_equal (String c) IH).
Qed.

Lemma string_app_assoc (s1 s2 s3 : string) :
  (s1 +:+ s2) +:+ s3 = s1 +:+ (s2 +:+ s3).
Proof.
  induction s1 as [|c s1 IH]; [done|]. exact (f_equal (String c) IH).
Qed.

Lemma text_cons part ps :
  text (part :: ps) =
  match part_content part with
  | Some c => c +:+ text ps
  | None => text ps
  end.
Proof.
  unfold text, chunks. cbn [omap list_omap].
  by destruct (part_content part).
Qed.

Lemma received_without_calls ps m :
  msg_tool_calls m = Some [] ->
  Forall (fun part => part_tool_calls part = None
                      \/ part_tool_calls part = Some []) ps ->
  received ps m =
  mkMessage (msg_role m) (msg_name m) (msg_content m +:+ text ps) (Some []).
Proof.
  intros Hm Hps. revert m Hm.
  induction Hps as [|part ps Hpart _ IH]; intros m Hm.
  - cbn. rewrite string_app_nil_r. destruct m; cbn in *. by subst.
  - unfold received in *. cbn [fold_left]. rewrite IH.
    + rewrite text_cons. unfold received_part.
      destruct Hpart as [-> | ->]; destruct (part_content part); cbn;
        by rewrite ?string_app_assoc.
    + unfold received_part.
      destruct Hpart as [-> | ->]; destruct (part_content part); cbn; done.
Qed.

Lemma model_calls_enqueues l : model_calls (map EvEnqueue l) = 0.
Proof. induction l; [done|]. cbn [map]. by rewrite model_calls_cons. Qed.

Lemma model_calls_nil : model_calls [] = 0.
Proof. done. Qed.

Create Rewrite HintDb model_calls.
Hint Rewrite model_calls_app model_calls_cons model_calls_enqueues
  model_calls_nil : model_calls.

(** A response without tool calls.  When the response of the backend to
    the first call carries no tool call, [chat] enqueues the text chunks of
    the response and nothing else, pushes one message, the one accumulated
    from the response (its content is the text, its tool calls are empty,
    and it has no role: line 293 builds it without one), onto its copy of
    the conversation, calls the backend once, and closes the stream. *)
Theorem chat_without_tool_calls settings messages (st : state) w' resp :
  ollama_chat env (world env st) settings (conversation env st messages)
    (backend_tools (getOllamaTools (mcpToolMap env st))) = (w', Ok resp) ->
  failure resp = None ->
  Forall (fun part => part_tool_calls part = None
                      \/ part_tool_calls part = Some []) (parts resp) ->
  let run := chat env settings messages st in
  let cur := length (arrays env st) in
  let x := length (objects env st) in
  let m := mkMessage None None (text (parts resp)) (Some []) in
  snd run = Ok tt
  /\ status env (fst run) = Closed
  /\ log env (fst run) =
     log env st ++ [EvChat (conversation env st messages)]
       ++ map EvEnqueue (chunks (parts resp)) ++ [EvPush cur x m]
  /\ arrays env (fst run) !! cur =
     Some (default [] (arrays env st !! messages) ++ [x])
  /\ objects env (fst run) = objects env st ++ [m]
  /\ model_calls (log env (fst run)) = model_calls (log env st) + 1.
Proof.
  intros Hchat Hfail Hparts. cbn zeta.
  rewrite chat_unfold.
  assert (received (parts resp) new_message =
          mkMessage None None (text (parts resp)) (Some [])) as Hrecv.
  { by rewrite received_without_calls. }
  change maxIterations with (S 9).
  rewrite (chat_loop_step _ _ _ _ _ _ w' resp);
    [| unfold maxIterations; lia
     | by rewrite conversation_started; destruct st
     | done].
  unfold final_calls, after_response. rewrite Hrecv, conversation_started.
  destruct st as [w cl cs cat arrs objs stat lg].
  cbn -[model_calls conversation].
  rewrite !lookup_snoc, list_insert_snoc, !lookup_snoc.
  cbn -[model_calls conversation].
  repeat split; try done.
  autorewrite with model_calls. cbn. lia.
Qed.

(** *** A backend that always calls tools *)

Lemma model_calls_after_annotation (st : state) cur w' resp :
  model_calls (log env (after_annotation env st cur w' resp)) =
  model_calls (log env st) + 1.
Proof.
  unfold after_annotation. cbn [log]. autorewrite with model_calls. cbn. lia.
Qed.

Lemma chat_loop_always_calling cat settings allTools cur :
  backend_always env settings (backend_tools allTools)
    (fun calls => calls <> [] /\ Forall (executable env cat) calls) ->
  forall fuel i (st : state),
    mcpToolMap env st = cat ->
    i + fuel = maxIterations ->
    exists st',
      chat_loop env fuel settings allTools cur i st = (st', Ok tt)
      /\ status env st' = status env st
      /\ model_calls (log env st') = model_calls (log env st) + fuel.
Proof.
  intros Hbackend. induction fuel as [|fuel IH]; intros i st Hcat Hi.
  - exists st. cbn. unfold ret. repeat split; lia.
  - destruct (Hbackend (world env st) (conversation env st cur))
      as (w' & resp & Hchat & Hfail & Hne & Hexec).
    rewrite (chat_loop_step _ _ _ _ _ _ w' resp) by (done || lia).
    destruct (executeToolCalls_executable cat (final_calls (parts resp))
                cur true (after_annotation env st cur w' resp)) as
      (st1 & Hrun & Hcat1 & _ & Hstatus1 & Hcalls1); [done..|].
    destruct (length (final_calls (parts resp)) =? 0)%nat eqn:Hlen.
    { apply Nat.eqb_eq in Hlen. by destruct (final_calls (parts resp)). }
    rewrite Hrun.
    destruct (IH (i + 1) st1) as (st' & Hloop & Hstatus & Hcount);
      [done | lia |].
    exists st'. split; [done|]. split.
    + by rewrite Hstatus, Hstatus1.
    + rewrite Hcount, Hcalls1, model_calls_after_annotation. lia.
Qed.

(** C3, as amended.  When the backend answers every call with a complete
    response that ends with at least one tool call, and every tool call it
    emits has decodable arguments and a name in the catalog, [chat] calls
    the backend exactly [maxIterations] times, returns normally and closes
    the stream. *)
Theorem chat_always_calling settings messages (st : state) :
  backend_always env settings
    (backend_tools (getOllamaTools (mcpToolMap env st)))
    (fun calls => calls <> []
                  /\ Forall (executable env (mcpToolMap env st)) calls) ->
  let run := chat env settings messages st in
  snd run = Ok tt
  /\ status env (fst run) = Closed
  /\ model_calls (log env (fst run)) = model_calls (log env st) + maxIterations.
Proof.
  intros Hbackend. cbn zeta. rewrite chat_unfold.
  destruct (chat_loop_always_calling _ _ _ (length (arrays env st)) Hbackend
              maxIterations 0 (started env st messages))
    as (st' & Hloop & _ & Hcount); [by destruct st | done |].
  rewrite Hloop. cbn [fst snd]. split; [done|]. split; [done|].
  change (log env (with_status env Closed st')) with (log env st').
  rewrite Hcount. by destruct st.
Qed.

(** *** A tool call that stops the loop *)

Lemma chat_loop_stops fuel settings allTools cur i (st : state) w' resp
    pre tc rest e :
  i < maxIterations ->
  ollama_chat env (world env st) settings (conversation env st cur)
    (backend_tools allTools) = (w', Ok resp) ->
  failure resp = None ->
  final_calls (parts resp) = pre ++ tc :: rest ->
  Forall (executable env (mcpToolMap env st)) pre ->
  stops env (mcpToolMap env st) tc e ->
  chat_loop env (S fuel) settings allTools cur i st =
  (fst (executeToolCalls env pre cur true
          (after_annotation env st cur w' resp)), Throw e).
Proof.
  intros Hi Hchat Hfail Hcalls Hpre Hstop.
  rewrite (chat_loop_step _ _ _ _ _ _ w' resp) by done.
  rewrite Hcalls. rewrite length_app. cbn [length].
  replace (length pre + S (length rest) =? 0)%nat with false
    by (symmetry; apply Nat.eqb_neq; lia).
  by rewrite (executeToolCalls_stops (mcpToolMap env st) pre tc rest e).
Qed.

Lemma chat_stops settings messages (st : state) w' resp pre tc rest e :
  ollama_chat env (world env st) settings (conversation env st messages)
    (backend_tools (getOllamaTools (mcpToolMap env st))) = (w', Ok resp) ->
  failure resp = None ->
  final_calls (parts resp) = pre ++ tc :: rest ->
  Forall (executable env (mcpToolMap env st)) pre ->
  stops env (mcpToolMap env st) tc e ->
  chat env settings messages st =
  (with_status env (Errored e)
     (fst (executeToolCalls env pre (length (arrays env st)) true
             (after_annotation env (started env st messages)
                (length (arrays env st)) w' resp))),
   Ok tt).
Proof.
  intros Hchat Hfail Hcalls Hpre Hstop.
  rewrite chat_unfold. change maxIterations with (S 9).
  rewrite (chat_loop_stops _ _ _ _ _ _ w' resp pre tc rest e);
    try done; try (unfold maxIterations; lia).
  rewrite conversation_started. by destruct st.
Qed.

(** C9. A tool call whose arguments are a string that [JSON.parse] rejects
    makes [executeToolCalls] throw the parse error once the calls before it
    have run: the state is the one those calls left, so no message is
    pushed for the call and the calls after it do not run.  In any
    iteration of the loop the error leaves the loop, and [chat] ends the
    stream in error with it. *)
Theorem unparsable_arguments_abort pre tc rest s e :
  tc_arguments tc = VStr s ->
  JSON_parse env (trim env s) = Throw e ->
  (forall messages controller (st : state),
     Forall (executable env (mcpToolMap env st)) pre ->
     executeToolCalls env (pre ++ tc :: rest) messages controller st =
     (fst (executeToolCalls env pre messages controller st), Throw e))
  /\ (forall fuel settings allTools cur i (st : state) w' resp,
        i < maxIterations ->
        ollama_chat env (world env st) settings (conversation env st cur)
          (backend_tools allTools) = (w', Ok resp) ->
        failure resp = None ->
        final_calls (parts resp) = pre ++ tc :: rest ->
        Forall (executable env (mcpToolMap env st)) pre ->
        snd (chat_loop env (S fuel) settings allTools cur i st) = Throw e)
  /\ (forall settings messages (st : state) w' resp,
        ollama_chat env (world env st) settings
          (conversation env st messages)
          (backend_tools (getOllamaTools (mcpToolMap env st)))
        = (w', Ok resp) ->
        failure resp = None ->
        final_calls (parts resp) = pre ++ tc :: rest ->
        Forall (executable env (mcpToolMap env st)) pre ->
        status env (fst (chat env settings messages st)) = Errored e).
Proof.
  intros Hargs Hparse.
  assert (forall cat, stops env cat tc e) as Hstop.
  { intros cat. left. unfold decode_arguments. by rewrite Hargs. }
  split; [|split].
  - intros messages controller st Hpre.
    by apply (executeToolCalls_stops (mcpToolMap env st)).
  - intros fuel settings allTools cur i st w' resp Hi Hchat Hfail Hcalls Hpre.
    by rewrite (chat_loop_stops _ _ _ _ _ _ w' resp pre tc rest e).
  - intros settings messages st w' resp Hchat Hfail Hcalls Hpre.
    by rewrite (chat_stops _ _ _ w' resp pre tc rest e).
Qed.


(** *** Failures of dispatch *)

(** C8. For a tool call whose arguments decode and whose name is in the
    catalog, a failure of the dispatch (the server's [callTool] throws, or
    the server has no client) is caught: the call returns normally, and
    one message is allocated and pushed onto the conversation, whose role
    is tool, whose name is the call's and whose content is the serialized
    object holding, under [error], "Failed to execute tool", the name and
    the message of the failure; the stream stays as it is, and
    [executeToolCalls] goes on with the calls that follow.  Whatever the
    servers answer, a list of such tool calls never throws. *)
Theorem dispatch_failure_folded messages controller tc v d e (st : state) :
  decode_arguments env (tc_arguments tc) = Ok v ->
  JSMap.get (VStr (tc_name tc)) (mcpToolMap env st) = Some d ->
  (existsb (String.eqb (td_serverName d)) (clients env st) = true
   /\ (exists w', callTool env (world env st) (td_serverName d)
                    (tc_name tc) v = (w', Throw e)))
  \/ (existsb (String.eqb (td_serverName d)) (clients env st) = false
      /\ e = Err ("Client for server " +:+ td_serverName d +:+ " not found")) ->
  let run := executeToolCall env messages controller tc st in
  let m := mkMessage (Some "tool") (Some (tc_name tc))
             (JSON_stringify env
                (VObj [("error",
                        VStr ("Failed to execute tool " +:+ tc_name tc
                              +:+ ": " +:+ message e))]))
             None in
  snd run = Ok tt
  /\ objects env (fst run) = objects env st ++ [m]
  /\ arrays env (fst run) =
     <[messages := default [] (arrays env st !! messages)
                   ++ [length (objects env st)]]> (arrays env st)
  /\ (forall ms,
        arrays env st !! messages = Some ms ->
        Forall (fun l => l < length (objects env st)) ms ->
        conversation env (fst run) messages =
        conversation env st messages ++ [m])
  /\ (exists evs, log env (fst run) = log env st ++ evs
                  /\ last evs = Some (EvPush messages (length (objects env st)) m))
  /\ status env (fst run) = status env st
  /\ (forall rest,
        executeToolCalls env (tc :: rest) messages controller st =
        executeToolCalls env rest messages controller (fst run))
  /\ (forall tcs a c (st1 : state),
        Forall (executable env (mcpToolMap env st1)) tcs ->
        snd (executeToolCalls env tcs a c st1) = Ok tt).
Proof.
  intros Hdec Hget Hfail. cbn zeta.
  rewrite (executeToolCall_resolved _ _ _ v d st Hdec Hget).
  assert (snd (dispatch env st d (tc_name tc) v) = Throw e) as Hout.
  { unfold dispatch. destruct Hfail as [[-> [w' ->]] | [-> ->]]; done. }
  cbn [fst snd]. unfold after_tool_call. cbn [objects arrays status log].
  rewrite Hout. rewrite result_message_fields. cbn [outcome].
  repeat split; try done.
  - intros ms Hms Hvalid.
    apply (conversation_extended st _ messages ms); try done.
    cbn [arrays length seq]. rewrite Hms.
    apply list_lookup_insert_eq. by eapply lookup_lt_Some.
  - eexists. split; [reflexivity|]. by rewrite !last_app.
  - intros rest. rewrite executeToolCalls_cons.
    rewrite (executeToolCall_resolved _ _ _ v d st Hdec Hget).
    unfold after_tool_call. by rewrite Hout.
  - intros tcs a c st1 Hall.
    destruct (executeToolCalls_executable _ tcs a c st1 eq_refl Hall)
      as (st' & -> & _). done.
Qed.

(** *** The store *)

Lemma store_preserved_refl (st : state) : store_preserved env st st.
Proof. unfold store_preserved. repeat split; auto. Qed.

Lemma store_preserved_same s0 (st st' : state) :
  arrays env st' = arrays env st ->
  objects env st' = objects env st ->
  store_preserved env s0 st -> store_preserved env s0 st'.
Proof. unfold store_preserved. by intros -> ->. Qed.

(** Appending objects and extending one array allocated after [s0]. *)
Lemma store_preserved_extend s0 (st st' : state) cur l news :
  length (arrays env s0) <= cur ->
  arrays env st' = <[cur := l]> (arrays env st) ->
  objects env st' = objects env st ++ news ->
  store_preserved env s0 st -> store_preserved env s0 st'.
Proof.
  intros Hcur Harr Hobj (Ha & Ho & Hla & Hlo). unfold store_preserved.
  rewrite Harr, Hobj, length_insert, length_app. repeat split; try lia.
  - intros a Hlt. rewrite list_lookup_insert_ne by lia. auto.
  - intros x Hlt. rewrite lookup_app_l by lia. auto.
Qed.

Lemma store_preserved_append s0 (st st' : state) news :
  arrays env st' = arrays env st ->
  objects env st' = objects env st ++ news ->
  store_preserved env s0 st -> store_preserved env s0 st'.
Proof.
  intros Harr Hobj (Ha & Ho & Hla & Hlo). unfold store_preserved.
  rewrite Harr, Hobj, length_app. repeat split; try lia; [done|].
  intros x Hlt. rewrite lookup_app_l by lia. auto.
Qed.

Lemma store_preserved_executeToolCalls s0 tcs cur c (st : state) :
  length (arrays env s0) <= cur ->
  store_preserved env s0 st ->
  store_preserved env s0 (fst (executeToolCalls env tcs cur c st)).
Proof.
  intros Hcur. revert st. induction tcs as [|tc tcs IH]; intros st Hst; [done|].
  rewrite executeToolCalls_cons.
  destruct (executeToolCall_cases cur c tc st)
    as [(e & _ & ->) | [(v & _ & _ & ->) | (v & d & _ & _ & ->)]]; try done.
  apply IH. by eapply (store_preserved_extend s0 st).
Qed.

Lemma chat_loop_exit fuel settings allTools cur i (st : state) :
  ~ i < maxIterations ->
  chat_loop env fuel settings allTools cur i st = (st, Ok tt).
Proof.
  intros Hi. destruct fuel as [|fuel]; [done|]. cbn [chat_loop].
  apply Nat.ltb_nlt in Hi. by rewrite Hi.
Qed.

Lemma chat_loop_model_throws fuel settings allTools cur i (st : state) w' e :
  i < maxIterations ->
  ollama_chat env (world env st) settings (conversation env st cur)
    (backend_tools allTools) = (w', Throw e) ->
  chat_loop env (S fuel) settings allTools cur i st =
  (with_world env w'
     (with_log env (log env st ++ [EvChat (conversation env st cur)]) st),
   Throw e).
Proof.
  intros Hi Hchat. cbn [chat_loop]. apply Nat.ltb_lt in Hi. rewrite Hi.
  unfold bind at 1. by rewrite call_model_spec, Hchat.
Qed.

Lemma chat_loop_stream_fails fuel settings allTools cur i (st : state)
    w' resp e :
  i < maxIterations ->
  ollama_chat env (world env st) settings (conversation env st cur)
    (backend_tools allTools) = (w', Ok resp) ->
  failure resp = Some e ->
  chat_loop env (S fuel) settings allTools cur i st =
  (mkState env w' (clients env st) (connectedServers env st)
     (mcpToolMap env st) (arrays env st)
     (objects env st ++ [received (parts resp) new_message])
     (status env st)
     (log env st ++ [EvChat (conversation env st cur)]
        ++ map EvEnqueue (chunks (parts resp))),
   Throw e).
Proof.
  intros Hi Hchat Hfail. cbn [chat_loop].
  apply Nat.ltb_lt in Hi. rewrite Hi.
  unfold bind at 1. rewrite call_model_spec, Hchat. cbn [fst snd].
  unfold bind at 1. unfold alloc_object at 1.
  unfold bind at 1. unfold receive at 1. unfold bind at 1.
  rewrite (for_each_receive_part _ _ new_message).
  2:{ destruct st; cbn. apply lookup_snoc. }
  rewrite Hfail. unfold throw.
  destruct st as [w cl cs cat arrs objs stat lg]. cbn.
  by rewrite list_insert_snoc, <- !app_assoc.
Qed.

Lemma store_preserved_chat_loop s0 settings allTools cur :
  length (arrays env s0) <= cur ->
  forall fuel i (st : state),
    store_preserved env s0 st ->
    store_preserved env s0
      (fst (chat_loop env fuel settings allTools cur i st)).
Proof.
  intros Hcur. induction fuel as [|fuel IH]; intros i st Hst; [done|].
  destruct (decide (i < maxIterations)) as [Hi|Hi];
    [|by rewrite chat_loop_exit].
  destruct (ollama_chat env (world env st) settings (conversation env st cur)
              (backend_tools allTools)) as [w' [resp|e]] eqn:Hchat.
  - destruct (failure resp) as [e|] eqn:Hfail.
    + rewrite (chat_loop_stream_fails _ _ _ _ _ _ w' resp e) by done.
      cbn [fst]. by eapply (store_preserved_append s0 st).
    + rewrite (chat_loop_step _ _ _ _ _ _ w' resp) by done.
      destruct (length (final_calls (parts resp)) =? 0)%nat.
      * cbn [fst]. by eapply (store_preserved_extend s0 st).
      * pose proof (store_preserved_executeToolCalls s0
                      (final_calls (parts resp)) cur true
                      (after_annotation env st cur w' resp) Hcur) as Hexec.
        destruct (executeToolCalls env _ cur true _) as [st1 [[]|e]].
        -- apply IH, Hexec. by eapply (store_preserved_extend s0 st).
        -- apply Hexec. by eapply (store_preserved_extend s0 st).
  - rewrite (chat_loop_model_throws _ _ _ _ _ _ w' e) by done.
    cbn [fst]. eapply (store_preserved_same s0 st); by destruct st.
Qed.

Lemma store_preserved_chat settings messages (st : state) :
  store_preserved env st (fst (chat env settings messages st)).
Proof.
  rewrite chat_unfold.
  assert (store_preserved env st (started env st messages)) as Hstart.
  { unfold store_preserved, started. destruct st; cbn.
    rewrite length_app. repeat split; try lia.
    intros a Ha. by rewrite lookup_app_l. }
  pose proof (store_preserved_chat_loop st settings
                (getOllamaTools (mcpToolMap env st))
                (length (arrays env st)) (Nat.le_refl _)
                maxIterations 0 (started env st messages) Hstart) as Hloop.
  destruct (chat_loop _ _ _ _ _ _ _) as [st' [[]|e]]; cbn [fst] in *;
    eapply (store_preserved_same st st'); by destruct st'.
Qed.

(** C10. [chat] changes nothing that was in the store when it was called:
    the caller's list holds the same elements afterwards, and every message
    object that existed, those of the caller's list among them, is
    unchanged.  All pushes go to the copy that [chat] allocates. *)
Theorem chat_preserves_caller_messages settings messages (st : state) :
  let st' := fst (chat env settings messages st) in
  (forall ms, arrays env st !! messages = Some ms ->
              arrays env st' !! messages = Some ms)
  /\ (forall l m, objects env st !! l = Some m ->
                  objects env st' !! l = Some m)
  /\ (forall ms, arrays env st !! messages = Some ms ->
                 Forall (fun l => l < length (objects env st)) ms ->
                 conversation env st' messages = conversation env st messages).
Proof.
  cbn zeta.
  destruct (store_preserved_chat settings messages st) as (Ha & Ho & _ & _).
  set (st' := fst (chat env settings messages st)) in *. clearbody st'.
  assert (forall ms, arrays env st !! messages = Some ms ->
                     arrays env st' !! messages = Some ms) as Harr.
  { intros ms Hms. rewrite Ha; [done|]. by eapply lookup_lt_Some. }
  split; [done|]. split.
  - intros l m Hl. rewrite Ho; [done|]. by eapply lookup_lt_Some.
  - intros ms Hms Hvalid. unfold conversation. rewrite (Harr ms Hms), Hms.
    cbn [default]. apply map_ext_Forall.
    eapply Forall_impl; [exact Hvalid|]. intros l Hl. cbn beta.
    by rewrite Ho.
Qed.

(** *** Argument decoding *)

(** C6. A string is decoded by [JSON.parse] applied to the trimmed string,
    so a string that parses to [v] after trimming decodes to [v]; a
    non-null object (an array is one) decodes to itself; every other
    input throws "Unexpected arguments type". *)
Theorem decode_arguments_kinds (args : value) :
  (forall s, args = VStr s ->
     decode_arguments env args = JSON_parse env (trim env s))
  /\ (JS.typeof args = "object" -> args <> VNull ->
      decode_arguments env args = Ok args)
  /\ (JS.typeof args <> "string" ->
      ~ (JS.typeof args = "object" /\ args <> VNull) ->
      decode_arguments env args =
      Throw (Err ("Unexpected arguments type: " +:+ JS.typeof args))).
Proof.
  split; [|split].
  - by intros s ->.
  - by destruct args.
  - intros Hs Ho. destruct args; cbn in *; try done.
    + exfalso. apply Ho. done.
    + exfalso. apply Ho. done.
Qed.

(** *** [initialize] *)

Lemma initialize_unfold (st : state) :
  initialize env st =
  match read_config env (world env st) with
  | (w1, Ok mcpServers) =>
      match for_each env mcpServers (connect_guarded env) (with_world env w1 st) with
      | (st2, Ok _) =>
          if (length (connectedServers env st2) =? 0)%nat
          then (st2, Throw (Err "No MCP servers were successfully connected"))
          else initializeTools env st2
      | (st2, Throw e) => (st2, Throw e)
      end
  | (w1, Throw e) => (with_world env w1 st, Throw e)
  end.
Proof.
  unfold initialize, bind, call_world, gets.
  destruct (read_config env (world env st)) as [w1 [servers|e]]; [|done].
  change (fun entry : string * MCPServer =>
            try_catch env (connect_server env (fst entry) (snd entry))
              (fun error =>
                 throw env (Err ("Failed to connect to MCP server "
                                 +:+ fst entry +:+ ": " +:+ message error))))
    with (connect_guarded env).
  destruct (for_each env servers (connect_guarded env) (with_world env w1 st))
    as [st2 [[]|e]]; [|done].
  by destruct (length (connectedServers env st2) =? 0)%nat.
Qed.

Lemma connect_guarded_ok name serverInfo (st st1 : state) :
  connect_guarded env (name, serverInfo) st = (st1, Ok tt) <->
  connect_server env name serverInfo st = (st1, Ok tt).
Proof.
  unfold connect_guarded, try_catch, throw. cbn [fst snd].
  destruct (connect_server env name serverInfo st) as [st' [[]|e]];
    split; congruence.
Qed.

Lemma connect_loop_ok servers (st st2 : state) :
  for_each env servers (connect_guarded env) st = (st2, Ok tt) <->
  all_connect env st servers st2.
Proof.
  revert st. induction servers as [|[name info] servers IH]; intros st.
  - cbn. unfold ret. split.
    + intros [= ->]. constructor.
    + by inversion 1.
  - cbn [for_each]. unfold bind at 1. split.
    + destruct (connect_guarded env (name, info) st) as [st1 [[]|e]] eqn:Hc;
        [|done].
      intros Hrest. econstructor; [by apply connect_guarded_ok | by apply IH].
    + inversion 1 as [|? ? ? st1 ? ? Hc Hrest]; subst.
      apply connect_guarded_ok in Hc. rewrite Hc. by apply IH.
Qed.

Lemma connect_loop_fail_fast pre name serverInfo rest e (st st2 st3 : state) :
  all_connect env st pre st2 ->
  connect_server env name serverInfo st2 = (st3, Throw e) ->
  for_each env (pre ++ (name, serverInfo) :: rest) (connect_guarded env) st =
  (st3, Throw (Err ("Failed to connect to MCP server " +:+ name +:+ ": "
                    +:+ message e))).
Proof.
  induction 1 as [st | st n i st1 pre st2 Hc _ IH]; intros Hfail.
  - cbn [app for_each]. unfold bind, connect_guarded, try_catch, throw.
    cbn [fst snd]. by rewrite Hfail.
  - cbn [app for_each]. unfold bind at 1.
    apply connect_guarded_ok in Hc. rewrite Hc. by apply IH.
Qed.

Lemma connect_server_connected name serverInfo (st st1 : state) :
  connect_server env name serverInfo st = (st1, Ok tt) ->
  connectedServers env st1 = connectedServers env st ++ [name].
Proof.
  unfold connect_server.
  destruct (String.eqb (srv_type serverInfo) "sse").
  - destruct (srv_url serverInfo) as [url|]; [|done].
    destruct (String.eqb url EmptyString); [done|].
    unfold bind, lift_result, connect_client, bind, emit, modify, call_world,
      clients_set, modify.
    destruct (new_URL env url) as [u|e]; [|done]. cbn.
    destruct (connect env _ _ _) as [w' [[]|e]]; [|done].
    intros [= <-]. cbn.
    by destruct (existsb _ _).
  - destruct (String.eqb (srv_type serverInfo) "stdio"); [|done].
    destruct (srv_command serverInfo) as [command|]; [|done].
    destruct (srv_args serverInfo) as [args|]; [|done].
    destruct (String.eqb command EmptyString); [done|].
    unfold bind, lift_result, connect_client, bind, emit, modify, call_world,
      clients_set, modify. cbn.
    destruct (connect env _ _ _) as [w' [[]|e]]; [|done].
    intros [= <-]. cbn.
    by destruct (existsb _ _).
Qed.

Lemma all_connect_connected servers (st st2 : state) :
  all_connect env st servers st2 ->
  connectedServers env st2 = connectedServers env st ++ map fst servers.
Proof.
  induction 1 as [st | st n i st1 rest st2 Hc _ IH]; cbn [map fst].
  - by rewrite app_nil_r.
  - rewrite IH, (connect_server_connected _ _ _ _ Hc). by rewrite <- app_assoc.
Qed.

Lemma list_loop_ok cs (st st' : state) :
  for_each env cs (list_server_tools env) st = (st', Ok tt) ->
  exists listings, lists env (world env st) cs listings (world env st').
Proof.
  revert st. induction cs as [|s cs IH]; intros st.
  - cbn. unfold ret. intros [= <-]. exists []. constructor.
  - cbn [for_each]. unfold bind at 1. unfold list_server_tools at 1.
    unfold bind, emit, modify, call_world. cbn.
    destruct (listTools env (world env st) s) as [w1 [v|e]] eqn:Hlist; [|done].
    rewrite for_each_register_tool. intros Hrest.
    destruct (IH _ Hrest) as [listings Hlists].
    exists ((s, v) :: listings). econstructor; [exact Hlist|].
    by destruct st.
Qed.

Lemma initializeTools_ok (st : state) :
  snd (initializeTools env st) = Ok tt <->
  exists listings w', lists env (world env st) (clients env st) listings w'.
Proof.
  unfold initializeTools, try_catch, bind, gets, throw. split.
  - destruct (for_each env (clients env st) (list_server_tools env) st)
      as [st' [[]|e]] eqn:Hrun; [|done].
    intros _. destruct (list_loop_ok _ _ _ Hrun) as [listings H]. eauto.
  - intros (listings & w' & Hlists).
    destruct (for_each_list_server_tools _ _ _ _ Hlists st eq_refl)
      as (st' & -> & _). done.
Qed.

(** C2, as amended.  On a fresh client, [initialize] returns normally if
    and only if the configuration is read, lists at least one server, every
    server of the list connects, and every connected server answers its
    listing call.  An empty list throws "No MCP servers were successfully
    connected".  The first server that fails to connect ends the
    initialization with an error naming it, whatever servers connected
    before it. *)
Theorem initialize_succeeds_iff (w : W env) :
  let st0 := new_MCPClient env w in
  (snd (initialize env st0) = Ok tt <->
   exists w1 servers st2 listings w3,
     read_config env w = (w1, Ok servers)
     /\ servers <> []
     /\ all_connect env (with_world env w1 st0) servers st2
     /\ lists env (world env st2) (clients env st2) listings w3)
  /\ (forall w1,
        read_config env w = (w1, Ok []) ->
        snd (initialize env st0) =
        Throw (Err "No MCP servers were successfully connected"))
  /\ (forall w1 pre name serverInfo rest st2 st3 e,
        read_config env w = (w1, Ok (pre ++ (name, serverInfo) :: rest)) ->
        all_connect env (with_world env w1 st0) pre st2 ->
        connect_server env name serverInfo st2 = (st3, Throw e) ->
        initialize env st0 =
        (st3, Throw (Err ("Failed to connect to MCP server " +:+ name
                          +:+ ": " +:+ message e)))).
Proof.
  cbn zeta. split; [|split].
  - rewrite initialize_unfold. cbn [world new_MCPClient]. split.
    + destruct (read_config env w) as [w1 [servers|e]]; [|done].
      destruct (for_each env servers (connect_guarded env) _)
        as [st2 [[]|e]] eqn:Hloop; [|done].
      apply connect_loop_ok in Hloop.
      pose proof (all_connect_connected _ _ _ Hloop) as Hconn.
      cbn [connectedServers with_world new_MCPClient app] in Hconn.
      destruct (length (connectedServers env st2) =? 0)%nat eqn:Hlen; [done|].
      intros (listings & w3 & Hlists)%initializeTools_ok.
      exists w1, servers, st2, listings, w3. repeat split; try done.
      intros ->. rewrite Hconn in Hlen. done.
    + intros (w1 & servers & st2 & listings & w3 & -> & Hne & Hall & Hlists).
      pose proof (all_connect_connected _ _ _ Hall) as Hconn.
      cbn [connectedServers with_world new_MCPClient app] in Hconn.
      apply connect_loop_ok in Hall. rewrite Hall.
      rewrite Hconn, length_map.
      destruct servers; [done|]. cbn [length Nat.eqb].
      apply initializeTools_ok. eauto.
  - intros w1 Hcfg. rewrite initialize_unfold. cbn [world new_MCPClient].
    by rewrite Hcfg.
  - intros w1 pre name serverInfo rest st2 st3 e Hcfg Hpre Hfail.
    rewrite initialize_unfold. cbn [world new_MCPClient]. rewrite Hcfg.
    by rewrite (connect_loop_fail_fast pre name serverInfo rest e _ st2 st3).
Qed.

(** *** Fuel *)

Lemma bind_ext {A B} (c : M A) (k1 k2 : A -> M B) (st : state) :
  (forall a st', k1 a st' = k2 a st') ->
  bind env c k1 st = bind env c k2 st.
Proof. intros Hk. unfold bind. destruct (c st) as [st' [a|e]]; auto. Qed.

(** The loop runs out of iterations before it runs out of fuel: any fuel
    that covers the remaining iterations gives the same run. *)
Lemma chat_loop_fuel settings allTools cur fuel1 fuel2 i (st : state) :
  maxIterations - i <= fuel1 ->
  maxIterations - i <= fuel2 ->
  chat_loop env fuel1 settings allTools cur i st =
  chat_loop env fuel2 settings allTools cur i st.
Proof.
  revert fuel2 i st.
  induction fuel1 as [|fuel1 IH]; intros fuel2 i st H1 H2.
  - rewrite !chat_loop_exit by lia. done.
  - destruct fuel2 as [|fuel2]; [rewrite !chat_loop_exit by lia; done|].
    destruct (decide (i < maxIterations)) as [Hi|Hi];
      [|by rewrite !chat_loop_exit].
    cbn [chat_loop]. apply Nat.ltb_lt in Hi. rewrite Hi.
    apply Nat.ltb_lt in Hi.
    apply bind_ext; intros response st1.
    apply bind_ext; intros message st2.
    apply bind_ext; intros _ st3.
    apply bind_ext; intros _ st4.
    apply bind_ext; intros m st5.
    destruct (length (default [] (msg_tool_calls m)) =? 0)%nat; [done|].
    apply bind_ext; intros _ st6.
    apply bind_ext; intros _ st7.
    apply bind_ext; intros _ st8.
    apply IH; lia.
Qed.

End Properties.

(** ** The properties on the scenarios *)

Import Scenario.

(** C6 on three inputs: the string [{"a":1}] decodes to the object with
    field [a] equal to 1, an object decodes to itself, a number throws. *)
Lemma decode_arguments_kinds_witness :
  decode_arguments hello (VStr a1) = Ok (VObj [("a", VNum 1)])
  /\ decode_arguments hello (VObj [("a", VNum 1)]) = Ok (VObj [("a", VNum 1)])
  /\ decode_arguments hello (VNum 5) =
     Throw (Err "Unexpected arguments type: number").
Proof.
  split; [|split].
  - rewrite (proj1 (decode_arguments_kinds hello (VStr a1)) a1 eq_refl).
    reflexivity.
  - apply (proj1 (proj2 (decode_arguments_kinds hello (VObj [("a", VNum 1)]))));
      [reflexivity | discriminate].
  - apply (proj2 (proj2 (decode_arguments_kinds hello (VNum 5))));
      [discriminate | intros [H _]; discriminate H].
Defined.

(** C5 on the two servers: both list [echo], the catalog holds the
    descriptor of the second server. *)
Lemma initializeTools_catalog_witness :
  JSMap.get (VStr "echo")
    (mcpToolMap hello (fst (initializeTools hello connected))) =
  Some (mkTool (VStr "echo") (VStr "second") VUndefined "s2")
  /\ length (JSMap.entries_at (VStr "echo")
               (mcpToolMap hello (fst (initializeTools hello connected)))) = 1.
Proof.
  assert (lists hello (world hello connected) (clients hello connected)
            [("s1", VObj [("tools",
                VArr [VObj [("name", VStr "echo"); ("description", VStr "first")];
                      VObj [("title", VStr "nameless")]])]);
             ("s2", VArr [VObj [("name", VStr "echo");
                                ("description", VStr "second")];
                          VObj [("name", VStr "add"); ("inputSchema", VObj [])]])]
            0) as Hlists.
  { econstructor; [reflexivity|]. econstructor; [reflexivity|]. constructor. }
  destruct (initializeTools_catalog hello connected _ _ Hlists eq_refl)
    as (_ & _ & Hget & Hcount & _).
  split.
  - rewrite Hget. reflexivity.
  - rewrite Hcount, Hget. reflexivity.
Defined.

(** C3, as amended, on the backend that always calls [echo]. *)
Lemma chat_always_calling_witness :
  status looping (fst looping_run) = Closed
  /\ model_calls (log looping (fst looping_run)) = 10.
Proof.
  destruct (chat_always_calling looping tt 0 (ready calls_echo))
    as (_ & Hstatus & Hcalls).
  - intros w msgs. exists (S w), (mkResponse calls_echo None).
    split; [reflexivity|]. split; [reflexivity|]. split; [discriminate|].
    constructor; [|constructor].
    split; [exists (VObj [("a", VNum 1)]) | eexists]; reflexivity.
  - split; [exact Hstatus | exact Hcalls].
Defined.


(** C9 on a turn of three calls, the second with unparsable arguments. *)
Lemma unparsable_arguments_abort_witness :
  status unparsable (fst unparsable_run) = Errored Fixture.SyntaxError.
Proof.
  destruct (unparsable_arguments_abort unparsable
              [mkToolCall "echo" (VObj [])]
              (mkToolCall "echo" (VStr "{a:1}"))
              [mkToolCall "echo" (VObj [])]
              "{a:1}" Fixture.SyntaxError eq_refl eq_refl) as (_ & _ & Hchat).
  apply (Hchat tt 0 (ready calls_echo_unparsable) 1
           (mkResponse calls_echo_unparsable None)); try reflexivity.
  constructor; [|constructor]. split; eexists; reflexivity.
Defined.

(** C8 on a call of [add], whose server call fails. *)
Lemma dispatch_failure_folded_witness :
  snd add_run = Ok tt
  /\ objects hello (fst add_run) =
     [question;
      mkMessage (Some "tool") (Some "add")
        (JSON_stringify hello
           (VObj [("error", VStr "Failed to execute tool add: overflow")]))
        None]
  /\ conversation hello (fst add_run) 0 =
     [question;
      mkMessage (Some "tool") (Some "add")
        (JSON_stringify hello
           (VObj [("error", VStr "Failed to execute tool add: overflow")]))
        None].
Proof.
  destruct (dispatch_failure_folded hello 0 true (mkToolCall "add" (VObj []))
              (VObj []) (mkTool (VStr "add") (VStr EmptyString) (VObj []) "s2")
              (Err "overflow") (ready says_hello) eq_refl eq_refl)
    as (Hok & Hobjects & _ & Hconversation & _).
  - left. split; [reflexivity|]. exists 0. reflexivity.
  - split; [exact Hok|]. split; [exact Hobjects|].
    apply (Hconversation [0]); [reflexivity|].
    constructor; [|constructor]. apply Nat.lt_0_succ.
Defined.


(** C10 on the backend that always calls [echo]: twenty-one messages
    later the caller's list still holds the question alone. *)
Lemma chat_preserves_caller_messages_witness :
  arrays looping (fst looping_run) !! 0 = Some [0]
  /\ objects looping (fst looping_run) !! 0 = Some question
  /\ conversation looping (fst looping_run) 0 = [question].
Proof.
  destruct (chat_preserves_caller_messages looping tt 0 (ready calls_echo))
    as (Harr & Hobj & Hconv).
  unfold looping_run. split; [|split].
  - apply Harr. reflexivity.
  - apply Hobj. reflexivity.
  - rewrite (Hconv [0]); [reflexivity | reflexivity |].
    constructor; [|constructor]. apply Nat.lt_0_succ.
Defined.

(** C2, as amended, on the two servers when both connect. *)
Lemma initialize_succeeds_iff_witness :
  snd (initialize hello (new_MCPClient hello 0)) = Ok tt.
Proof.
  apply (proj1 (initialize_succeeds_iff hello 0)).
  eexists 0, servers, _, _, _.
  split; [reflexivity|]. split; [discriminate|]. split.
  - econstructor; [reflexivity|]. econstructor; [reflexivity|]. constructor.
  - econstructor; [reflexivity|]. econstructor; [reflexivity|]. constructor.
Defined.

(** *** Where the specification and the code differ *)


(** C4.  The code misses what the claim says.  The backend answers the
    first call with the text parts "Hello" and ", world" and no tool call:
    [chat] enqueues the two chunks and nothing else, calls the backend
    once and closes the stream, as the claim says, but the one message it
    appends has no role: the conversation holds no assistant message. *)
Theorem appended_message_has_no_role :
  snd hello_run = Ok tt
  /\ status hello (fst hello_run) = Closed
  /\ enqueued (log hello (fst hello_run)) = ["Hello"; ", world"]
  /\ model_calls (log hello (fst hello_run)) = 1
  /\ conversation hello (fst hello_run) 1 =
     [question; mkMessage None None "Hello, world" (Some [])]
  /\ ~ (exists m, m ∈ conversation hello (fst hello_run) 1
                  /\ msg_role m = Some "assistant").
Proof.
  destruct (chat_without_tool_calls hello tt 0 (ready says_hello) 1
              (mkResponse says_hello None))
    as (Hok & Hstatus & _); [reflexivity | reflexivity | repeat constructor |].
  assert (conversation hello (fst hello_run) 1 =
          [question; mkMessage None None "Hello, world" (Some [])]) as Hconv
    by (vm_compute; reflexivity).
  split; [exact Hok|]. split; [exact Hstatus|].
  split; [vm_compute; reflexivity|]. split; [vm_compute; reflexivity|].
  split; [exact Hconv|].
  rewrite Hconv. intros (m & Hin & Hrole).
  apply elem_of_cons in Hin as [-> | Hin]; [discriminate Hrole|].
  apply list_elem_of_singleton in Hin as ->. discriminate Hrole.
Qed.

(** C2 as stated fails.  The first server connects, the second refuses:
    one server is connected and the initialization fails. *)
Lemma initialize_fails_with_a_server_connected :
  connectedServers refusing (fst refused_run) = ["s1"]
  /\ snd refused_run =
     Throw (Err "Failed to connect to MCP server s2: refused")
  /\ ~ (snd refused_run = Ok tt <->
        1 <= length (connectedServers refusing (fst refused_run))).
Proof.
  split; [reflexivity|]. split; [reflexivity|].
  intros [_ Hback].
  assert (snd refused_run = Ok tt) as Hok by (apply Hback; vm_compute; lia).
  vm_compute in Hok. discriminate Hok.
Qed.

(** C3 as stated fails.  The backend answers every call with a call of
    [echo], which is in the catalog, followed by a call of [ghost], which
    is not: the stream is errored after one call to the backend. *)
Lemma resolvable_call_not_enough :
  backend_always mixed tt
    (backend_tools
       (getOllamaTools (mcpToolMap mixed (ready calls_echo_then_ghost))))
    (fun calls =>
       Exists (resolvable (mcpToolMap mixed (ready calls_echo_then_ghost)))
              calls)
  /\ status mixed (fst mixed_run) = Errored (Err "MCP tool ghost not found")
  /\ model_calls (log mixed (fst mixed_run)) = 1
  /\ ~ (status mixed (fst mixed_run) = Closed
        /\ model_calls (log mixed (fst mixed_run)) =
           model_calls (log mixed (ready calls_echo_then_ghost))
           + maxIterations).
Proof.
  split; [|split; [reflexivity|split; [reflexivity|]]].
  - intros w msgs. exists (S w), (mkResponse calls_echo_then_ghost None).
    split; [reflexivity|]. split; [reflexivity|].
    apply Exists_cons_hd. eexists. reflexivity.
  - intros [Hstatus _]. vm_compute in Hstatus. discriminate Hstatus.
Qed.

(** ** Further properties of the client *)

Section ServiceProperties.

Variable env : Env.

Abbreviation state := (state env).

Ltac count_model_calls :=
  repeat first [ rewrite model_calls_app | rewrite model_calls_cons
               | rewrite model_calls_enqueues | rewrite model_calls_nil ];
  cbn [is_chat]; lia.

(** *** What tool execution and the loop leave alone *)

Lemma same_client_refl (st : state) : same_client env st st.
Proof. by repeat split. Qed.

Lemma same_client_trans (st1 st2 st3 : state) :
  same_client env st1 st2 -> same_client env st2 st3 ->
  same_client env st1 st3.
Proof.
  intros (H1 & H2 & H3 & H4) (K1 & K2 & K3 & K4).
  repeat split; congruence.
Qed.

Lemma executeToolCalls_frame tcs a c (st : state) :
  same_client env st (fst (executeToolCalls env tcs a c st))
  /\ model_calls (log env (fst (executeToolCalls env tcs a c st))) =
     model_calls (log env st).
Proof.
  revert st. induction tcs as [|tc tcs IH]; intros st.
  - split; [apply same_client_refl | done].
  - rewrite executeToolCalls_cons.
    destruct (executeToolCall_cases env a c tc st)
      as [(e & _ & ->) | [(v & _ & _ & ->) | (v & d & _ & _ & ->)]];
      try (split; [apply same_client_refl | done]).
    destruct (IH (after_tool_call env st a c d (tc_name tc) v)) as [Hs Hm].
    split.
    + eapply same_client_trans; [|exact Hs]. by repeat split.
    + by rewrite Hm, model_calls_after_tool_call.
Qed.

Lemma model_calls_after_response (st : state) cur w' resp :
  model_calls (log env (after_response env st cur w' resp)) =
  model_calls (log env st) + 1.
Proof.
  unfold after_response. cbn [log].
  rewrite !model_calls_app, model_calls_enqueues, !model_calls_cons. cbn. lia.
Qed.

Lemma chat_loop_frame settings allTools cur fuel i (st : state) :
  let st' := fst (chat_loop env fuel settings allTools cur i st) in
  same_client env st st'
  /\ model_calls (log env st) <= model_calls (log env st')
  /\ model_calls (log env st') <= model_calls (log env st) + fuel
  /\ (i < maxIterations -> 0 < fuel ->
      model_calls (log env st) + 1 <= model_calls (log env st')).
Proof.
  cbn zeta. revert i st. induction fuel as [|fuel IH]; intros i st.
  { cbn. repeat split; lia. }
  destruct (decide (i < maxIterations)) as [Hi|Hi].
  2:{ rewrite chat_loop_exit by done. cbn. repeat split; lia. }
  destruct (ollama_chat env (world env st) settings (conversation env st cur)
              (backend_tools allTools)) as [w' [resp|e]] eqn:Hchat.
  - destruct (failure resp) as [e|] eqn:Hfail.
    + rewrite (chat_loop_stream_fails env _ _ _ _ _ _ w' resp e) by done.
      cbn [fst log]. rewrite !model_calls_app, model_calls_enqueues,
        !model_calls_cons. cbn. repeat split; lia.
    + rewrite (chat_loop_step env _ _ _ _ _ _ w' resp) by done.
      destruct (length (final_calls (parts resp)) =? 0)%nat.
      * cbn [fst]. rewrite model_calls_after_response.
        repeat split; lia.
      * destruct (executeToolCalls_frame (final_calls (parts resp)) cur true
                    (after_annotation env st cur w' resp)) as [Hs Hm].
        rewrite model_calls_after_annotation in Hm.
        destruct (executeToolCalls env _ cur true _) as [st1 [[]|e]];
          cbn [fst] in *.
        -- destruct (IH (i + 1) st1) as (Hs' & Hle & Hge & _).
           split; [|repeat split; lia].
           eapply same_client_trans; [|exact Hs'].
           eapply same_client_trans; [|exact Hs]. by repeat split.
        -- split; [|repeat split; lia].
           eapply same_client_trans; [|exact Hs]. by repeat split.
  - rewrite (chat_loop_model_throws env _ _ _ _ _ _ w' e) by done.
    cbn [fst]. destruct st. cbn -[model_calls].
    rewrite !model_calls_app, !model_calls_cons. cbn. repeat split; lia.
Qed.

(** X1. The loop of [chat] is bounded.  In a run of [chat] on a list of
    messages, in which every awaited call settles, the backend is called
    at least once and at most [maxIterations] times, whatever the
    responses hold and whatever the tool calls do. *)
Theorem chat_calls_backend_within_bound settings messages (st : state) ms :
  arrays env st !! messages = Some ms ->
  let run := chat env settings messages st in
  model_calls (log env st) + 1 <= model_calls (log env (fst run))
  /\ model_calls (log env (fst run)) <= model_calls (log env st) + maxIterations.
Proof.
  intros _. cbn zeta. rewrite chat_unfold.
  destruct (chat_loop_frame settings (getOllamaTools (mcpToolMap env st))
              (length (arrays env st)) maxIterations 0
              (started env st messages)) as (_ & _ & Hle & Hge).
  assert (model_calls (log env (started env st messages)) =
          model_calls (log env st)) as Hlog by by destruct st.
  rewrite Hlog in Hle, Hge.
  specialize (Hge ltac:(unfold maxIterations; lia)
                  ltac:(unfold maxIterations; lia)).
  destruct (chat_loop env maxIterations _ _ _ _ _) as [st' [[]|e]];
    cbn [fst snd] in *.
  - change (log env (with_status env Closed st')) with (log env st'). lia.
  - change (log env (with_status env (Errored e) st')) with (log env st'). lia.
Qed.

Lemma chat_keeps_client_fields settings messages (st : state) :
  mcpToolMap env (fst (chat env settings messages st)) = mcpToolMap env st
  /\ clients env (fst (chat env settings messages st)) = clients env st
  /\ connectedServers env (fst (chat env settings messages st)) =
     connectedServers env st.
Proof.
  rewrite chat_unfold.
  destruct (chat_loop_frame settings (getOllamaTools (mcpToolMap env st))
              (length (arrays env st)) maxIterations 0
              (started env st messages)) as ((Hm & Hc & Hs & _) & _).
  destruct (chat_loop env maxIterations _ _ _ _ _) as [st' [[]|e]];
    cbn [fst] in *;
    (replace (mcpToolMap env st) with (mcpToolMap env (started env st messages))
       by by destruct st);
    (replace (clients env st) with (clients env (started env st messages))
       by by destruct st);
    (replace (connectedServers env st)
       with (connectedServers env (started env st messages))
       by by destruct st);
    destruct st'; cbn in *; by rewrite Hm, Hc, Hs.
Qed.

(** X2. [chat] never changes the client: the catalog, the clients and the
    list of connected servers are after the call what they were before,
    so are [getToolCount] and [getConnectedServers]. *)
Theorem chat_keeps_the_client settings messages (st : state) :
  let st' := fst (chat env settings messages st) in
  mcpToolMap env st' = mcpToolMap env st
  /\ clients env st' = clients env st
  /\ getConnectedServers env st' = getConnectedServers env st
  /\ getToolCount env st' = getToolCount env st.
Proof.
  cbn zeta. unfold getConnectedServers, getToolCount.
  destruct (chat_keeps_client_fields settings messages st) as (-> & -> & ->).
  done.
Qed.

(** *** The catalog that [initialize] builds *)

Lemma get_elem {V} (k : value) (d : V) (m : JSMap.t V) :
  JSMap.get k m = Some d ->
  exists k', (k', d) ∈ m /\ JS.same_value_zero k' k = true.
Proof.
  induction m as [|[k1 v1] m IH]; cbn [JSMap.get]; [done|].
  destruct (JS.same_value_zero k1 k) eqn:Hk.
  - intros [= ->]. exists k1. split; [apply elem_of_cons; by left | done].
  - intros (k' & Hin & Hsvz)%IH. exists k'.
    split; [apply elem_of_cons; by right | done].
Qed.

Lemma entries_at_elem {V} (k : value) (d : V) (m : JSMap.t V) :
  (k, d) ∈ m -> JS.same_value_zero k k = true ->
  1 <= length (JSMap.entries_at k m).
Proof.
  induction m as [|[k1 v1] m IH]; [by intros ?%elem_of_nil|].
  rewrite entries_at_cons. intros [[= <- <-] | Hin]%elem_of_cons Hk.
  - rewrite Hk. cbn. lia.
  - specialize (IH Hin Hk). destruct (JS.same_value_zero k1 k); cbn; lia.
Qed.

Lemma elem_get {V} (k : value) (d : V) (m : JSMap.t V) :
  (k, d) ∈ m -> JS.same_value_zero k k = true ->
  length (JSMap.entries_at k m) <= 1 ->
  JSMap.get k m = Some d.
Proof.
  induction m as [|[k1 v1] m IH]; [by intros ?%elem_of_nil|].
  rewrite entries_at_cons. cbn [JSMap.get].
  intros [[= <- <-] | Hin]%elem_of_cons Hk.
  - by rewrite Hk.
  - destruct (JS.same_value_zero k1 k) eqn:Hk1; [|by apply IH].
    pose proof (entries_at_elem _ _ _ Hin Hk). cbn. lia.
Qed.

Lemma catalog_ok_fold (cs : list string) s rs m :
  s ∈ cs ->
  (forall e, e ∈ m ->
     td_name (snd e) = fst e /\ JS.truthy (fst e) = true
     /\ td_serverName (snd e) ∈ cs) ->
  forall e, e ∈ fold_left register_pure (map (pair s) rs) m ->
    td_name (snd e) = fst e /\ JS.truthy (fst e) = true
    /\ td_serverName (snd e) ∈ cs.
Proof.
  intros Hs Hm e He.
  destruct (fold_register_origin _ _ _ He) as [Hin | (r & Hr & Hreg & ->)];
    [by apply Hm|].
  apply list_elem_of_fmap in Hr as (tool & -> & _). cbn [fst snd] in *.
  unfold registrable in Hreg. apply andb_true_iff in Hreg as [_ Hname].
  by repeat split.
Qed.

Lemma list_server_tools_catalog_ok s (st : state) :
  s ∈ clients env st ->
  catalog_ok env st ->
  catalog_ok env (fst (list_server_tools env s st))
  /\ clients env (fst (list_server_tools env s st)) = clients env st.
Proof.
  intros Hs [Hentries Hkeys].
  unfold list_server_tools, bind, emit, modify, call_world. cbn.
  destruct (listTools env (world env st) s) as [w1 [v|e]].
  - rewrite for_each_register_tool. cbn [fst]. split; [|by destruct st].
    split.
    + intros e He.
      replace (clients env _) with (clients env st) by by destruct st.
      eapply (catalog_ok_fold (clients env st) s (tools_array v)); [done| |].
      * exact Hentries.
      * by destruct st.
    + intros k.
      replace (mcpToolMap env _) with
        (fold_left register_pure (map (pair s) (tools_array v))
           (mcpToolMap env st)) by by destruct st.
      by apply entries_fold_register.
  - cbn [fst]. split; [|by destruct st]. by destruct st.
Qed.

Lemma list_loop_catalog_ok cs (st : state) :
  Forall (fun s => s ∈ clients env st) cs ->
  catalog_ok env st ->
  catalog_ok env (fst (for_each env cs (list_server_tools env) st)).
Proof.
  revert st. induction cs as [|s cs IH]; intros st Hcs Hok; [done|].
  apply Forall_cons in Hcs as [Hs Hcs].
  destruct (list_server_tools_catalog_ok s st Hs Hok) as [Hok1 Hcl1].
  cbn [for_each]. unfold bind.
  destruct (list_server_tools env s st) as [st1 [[]|e]]; cbn [fst] in *;
    [|done].
  apply IH; [|done]. by rewrite Hcl1.
Qed.

Lemma initializeTools_catalog_ok (st : state) :
  catalog_ok env st -> catalog_ok env (fst (initializeTools env st)).
Proof.
  intros Hok. unfold initializeTools, try_catch, bind, gets, throw.
  pose proof (list_loop_catalog_ok (clients env st) st) as Hloop.
  destruct (for_each env (clients env st) (list_server_tools env) st)
    as [st1 [[]|e]]; cbn [fst] in *; apply Hloop; try done;
    by apply Forall_forall.
Qed.

Lemma connect_server_catalog name serverInfo (st : state) :
  mcpToolMap env (fst (connect_server env name serverInfo st)) =
  mcpToolMap env st.
Proof.
  unfold connect_server.
  destruct (String.eqb (srv_type serverInfo) "sse").
  - destruct (srv_url serverInfo) as [url|]; [|done].
    destruct (String.eqb url EmptyString); [done|].
    unfold bind, lift_result, connect_client, bind, emit, modify, call_world,
      clients_set, modify.
    destruct (new_URL env url) as [u|e]; [|done]. cbn.
    destruct (connect env _ _ _) as [w' [[]|e]]; [|done]. cbn.
    by destruct (existsb _ _).
  - destruct (String.eqb (srv_type serverInfo) "stdio"); [|done].
    destruct (srv_command serverInfo) as [command|]; [|done].
    destruct (srv_args serverInfo) as [args|]; [|done].
    destruct (String.eqb command EmptyString); [done|].
    unfold bind, lift_result, connect_client, bind, emit, modify, call_world,
      clients_set, modify. cbn.
    destruct (connect env _ _ _) as [w' [[]|e]]; [|done]. cbn.
    by destruct (existsb _ _).
Qed.

Lemma connect_loop_catalog servers (st : state) :
  mcpToolMap env (fst (for_each env servers (connect_guarded env) st)) =
  mcpToolMap env st.
Proof.
  revert st. induction servers as [|[name info] servers IH]; intros st; [done|].
  cbn [for_each]. unfold bind.
  pose proof (connect_server_catalog name info st) as Hc.
  unfold connect_guarded at 1, try_catch, throw. cbn [fst snd].
  destruct (connect_server env name info st) as [st1 [[]|e]]; cbn [fst] in *;
    [|done].
  by rewrite IH.
Qed.

Lemma catalog_ok_empty (st : state) :
  mcpToolMap env st = [] -> catalog_ok env st.
Proof.
  intros Hm. unfold catalog_ok. rewrite Hm. split.
  - by intros e ?%elem_of_nil.
  - intros k. cbn. lia.
Qed.

Lemma catalog_ok_fields (st st' : state) :
  mcpToolMap env st' = mcpToolMap env st ->
  clients env st' = clients env st ->
  catalog_ok env st -> catalog_ok env st'.
Proof. unfold catalog_ok. by intros -> ->. Qed.

Lemma initialize_keeps_catalog_ok (st : state) :
  mcpToolMap env st = [] -> catalog_ok env (fst (initialize env st)).
Proof.
  intros Hm. rewrite initialize_unfold.
  destruct (read_config env (world env st)) as [w1 [servers|e]].
  - pose proof (connect_loop_catalog servers (with_world env w1 st)) as Hc.
    destruct (for_each env servers (connect_guarded env) _)
      as [st2 [[]|e]]; cbn [fst] in *.
    + assert (mcpToolMap env st2 = []) as Hm2
        by (rewrite Hc; by destruct st).
      destruct (length (connectedServers env st2) =? 0)%nat.
      * by apply catalog_ok_empty.
      * by apply initializeTools_catalog_ok, catalog_ok_empty.
    + apply catalog_ok_empty. rewrite Hc. by destruct st.
  - apply catalog_ok_empty. by destruct st.
Qed.

(** X3. Whether [initialize] succeeds or fails, the catalog of a newly
    constructed client is consistent after it: every entry is keyed by the
    name of its descriptor, the name is truthy, a name has at most one
    entry, and the server of every descriptor has a client. *)
Theorem initialize_catalog_consistent (st : state) :
  catalog_ok env (fst (initialize env (construct env st))).
Proof. apply initialize_keeps_catalog_ok. by destruct st. Qed.

Lemma offered_tool_resolves (st : state) t s :
  catalog_ok env st ->
  t ∈ getOllamaTools (mcpToolMap env st) ->
  ot_name t = VStr s ->
  exists d,
    JSMap.get (VStr s) (mcpToolMap env st) = Some d
    /\ ot_description t = td_description d
    /\ ot_parameters t = td_inputSchema d
    /\ td_serverName d ∈ clients env st.
Proof.
  intros [Hentries Hkeys] Ht Hname.
  unfold getOllamaTools in Ht.
  apply list_elem_of_fmap in Ht as ([k d] & -> & Hin). cbn [snd ot_name] in *.
  destruct (Hentries _ Hin) as (Hk & _ & Hserver). cbn [fst snd] in *.
  exists d. repeat split; try done.
  apply elem_get; [| |apply Hkeys].
  - by rewrite <- Hname, Hk.
  - cbn. apply String.eqb_refl.
Qed.

(** X4. On a consistent catalog, every tool that [getOllamaTools] offers
    to the backend under a string name can be called: the name resolves in
    the catalog to the descriptor the tool was projected from, and that
    descriptor's server has a client. *)
Theorem offered_tools_resolve (st : state) :
  catalog_ok env st ->
  Forall (fun t =>
            forall s, ot_name t = VStr s ->
              exists d,
                JSMap.get (VStr s) (mcpToolMap env st) = Some d
                /\ ot_description t = td_description d
                /\ ot_parameters t = td_inputSchema d
                /\ td_serverName d ∈ clients env st)
         (getOllamaTools (mcpToolMap env st)).
Proof.
  intros Hok. apply Forall_forall. intros t Ht s Hname.
  by eapply offered_tool_resolves.
Qed.

Lemma server_calls_app l1 l2 :
  server_calls (l1 ++ l2) = server_calls l1 ++ server_calls l2.
Proof.
  induction l1 as [|ev l1 IH]; [done|].
  destruct ev; cbn; by rewrite ?IH.
Qed.

Lemma resolved_client (st : state) k d :
  catalog_ok env st ->
  JSMap.get k (mcpToolMap env st) = Some d ->
  existsb (String.eqb (td_serverName d)) (clients env st) = true.
Proof.
  intros [Hentries _] (k' & Hin & _)%get_elem.
  destruct (Hentries _ Hin) as (_ & _ & Hserver). cbn [snd] in Hserver.
  apply existsb_exists. exists (td_serverName d).
  split; [by apply list_elem_of_In | apply String.eqb_refl].
Qed.

(** X5. On a consistent catalog, a tool call whose arguments decode and
    whose name resolves makes exactly one server call, to the server of
    the resolved descriptor, with the call's name and the decoded
    arguments; the branch for a missing client is never taken. *)
Theorem resolved_call_reaches_its_server messages controller tc v d
    (st : state) :
  catalog_ok env st ->
  decode_arguments env (tc_arguments tc) = Ok v ->
  JSMap.get (VStr (tc_name tc)) (mcpToolMap env st) = Some d ->
  let run := executeToolCall env messages controller tc st in
  snd run = Ok tt
  /\ server_calls (log env (fst run)) =
     server_calls (log env st) ++ [(td_serverName d, tc_name tc, v)]
  /\ world env (fst run) =
     fst (callTool env (world env st) (td_serverName d) (tc_name tc) v).
Proof.
  intros Hok Hdec Hget. cbn zeta.
  rewrite (executeToolCall_resolved env _ _ _ v d st Hdec Hget).
  pose proof (resolved_client st _ d Hok Hget) as Hclient.
  unfold after_tool_call, dispatch, dispatch_events. rewrite Hclient.
  cbn [fst snd log world]. split; [done|]. split; [|done].
  rewrite !server_calls_app. by destruct controller.
Qed.

(** *** What a run adds to the log *)

Lemma enqueued_app l1 l2 : enqueued (l1 ++ l2) = enqueued l1 ++ enqueued l2.
Proof. induction l1 as [|ev l1 IH]; [done|]. destruct ev; cbn; by rewrite ?IH. Qed.

Lemma pushed_messages_app l1 l2 :
  pushed_messages (l1 ++ l2) = pushed_messages l1 ++ pushed_messages l2.
Proof. induction l1 as [|ev l1 IH]; [done|]. destruct ev; cbn; by rewrite ?IH. Qed.

Lemma connections_app l1 l2 :
  connections (l1 ++ l2) = connections l1 ++ connections l2.
Proof. induction l1 as [|ev l1 IH]; [done|]. destruct ev; cbn; by rewrite ?IH. Qed.

Lemma listings_asked_app l1 l2 :
  listings_asked (l1 ++ l2) = listings_asked l1 ++ listings_asked l2.
Proof. induction l1 as [|ev l1 IH]; [done|]. destruct ev; cbn; by rewrite ?IH. Qed.

Lemma conversations_sent_app l1 l2 :
  conversations_sent (l1 ++ l2) =
  conversations_sent l1 ++ conversations_sent l2.
Proof. induction l1 as [|ev l1 IH]; [done|]. destruct ev; cbn; by rewrite ?IH. Qed.

Lemma enqueued_enqueues l : enqueued (map EvEnqueue l) = l.
Proof. induction l as [|x l IH]; [done|]. cbn. by rewrite IH. Qed.

Lemma pushed_enqueues l : pushed_messages (map EvEnqueue l) = [].
Proof. by induction l. Qed.

Lemma request_events_app l1 l2 :
  request_events l1 -> request_events l2 -> request_events (l1 ++ l2).
Proof.
  intros [H1 H2] [K1 K2]. unfold request_events.
  by rewrite connections_app, listings_asked_app, H1, H2, K1, K2.
Qed.

Lemma request_events_enqueues l : request_events (map EvEnqueue l).
Proof. by induction l. Qed.

Lemma executeToolCalls_log tcs a c (st : state) :
  exists evs,
    log env (fst (executeToolCalls env tcs a c st)) = log env st ++ evs
    /\ request_events evs.
Proof.
  revert st. induction tcs as [|tc tcs IH]; intros st.
  - exists []. by rewrite app_nil_r.
  - rewrite executeToolCalls_cons.
    destruct (executeToolCall_cases env a c tc st)
      as [(e & _ & ->) | [(v & _ & _ & ->) | (v & d & _ & _ & ->)]];
      try (exists []; by rewrite app_nil_r).
    destruct (IH (after_tool_call env st a c d (tc_name tc) v))
      as (evs & -> & Hevs).
    unfold after_tool_call at 1. cbn [log]. eexists.
    split; [by rewrite <- app_assoc|].
    apply request_events_app; [|done].
    unfold dispatch_events. by destruct (existsb _ _), c.
Qed.

Lemma chat_loop_log settings allTools cur fuel i (st : state) :
  exists evs,
    log env (fst (chat_loop env fuel settings allTools cur i st)) =
    log env st ++ evs
    /\ request_events evs
    /\ (i < maxIterations -> 0 < fuel ->
        exists evs', evs = EvChat (conversation env st cur) :: evs').
Proof.
  revert i st. induction fuel as [|fuel IH]; intros i st.
  { exists []. cbn. rewrite app_nil_r. repeat split; lia. }
  destruct (decide (i < maxIterations)) as [Hi|Hi].
  2:{ rewrite chat_loop_exit by done. exists []. cbn. rewrite app_nil_r.
      repeat split; lia. }
  destruct (ollama_chat env (world env st) settings (conversation env st cur)
              (backend_tools allTools)) as [w' [resp|e]] eqn:Hchat.
  - destruct (failure resp) as [e|] eqn:Hfail.
    + rewrite (chat_loop_stream_fails env _ _ _ _ _ _ w' resp e) by done.
      cbn [fst log]. eexists. split; [reflexivity|]. split; [|eauto].
      apply (request_events_app [_]); [done | apply request_events_enqueues].
    + rewrite (chat_loop_step env _ _ _ _ _ _ w' resp) by done.
      destruct (length (final_calls (parts resp)) =? 0)%nat.
      * cbn [fst]. unfold after_response. cbn [log]. eexists.
        split; [reflexivity|]. split; [|eauto].
        apply (request_events_app [_]); [done|].
        apply request_events_app; [apply request_events_enqueues | done].
      * destruct (executeToolCalls_log (final_calls (parts resp)) cur true
                    (after_annotation env st cur w' resp))
          as (evs1 & Hlog1 & Hevs1).
        assert (request_events
                  ([EvChat (conversation env st cur)]
                     ++ map EvEnqueue (chunks (parts resp))
                     ++ [EvPush cur (length (objects env st))
                           (received (parts resp) new_message)]
                     ++ [EvEnqueue (tool_calls_block env
                                      (final_calls (parts resp)))])) as Hann.
        { apply (request_events_app [_]); [done|].
          apply request_events_app; [apply request_events_enqueues | done]. }
        destruct (executeToolCalls env _ cur true _) as [st1 [[]|e]];
          cbn [fst] in *.
        -- destruct (IH (i + 1) st1) as (evs2 & -> & Hevs2 & _).
           rewrite Hlog1. unfold after_annotation. cbn [log].
           eexists. split; [by rewrite <- !app_assoc|].
           split; [|eauto].
           rewrite !app_assoc. apply request_events_app; [|done].
           apply request_events_app; [|done].
           by rewrite <- !app_assoc.
        -- rewrite Hlog1. unfold after_annotation. cbn [log].
           eexists. split; [by rewrite <- !app_assoc|].
           split; [|eauto].
           rewrite !app_assoc. apply request_events_app; [|done].
           by rewrite <- !app_assoc.
  - rewrite (chat_loop_model_throws env _ _ _ _ _ _ w' e) by done.
    cbn [fst]. exists [EvChat (conversation env st cur)].
    split; [by destruct st|]. split; [done | eauto].
Qed.

(** X6. When the response to the first call breaks after some parts,
    [controller.enqueue] has been called with each non-empty text chunk
    received before the break, in order, and with nothing else, and
    [chat] then ends the stream in error with the error of the break.
    The message under construction is not pushed: the conversation holds
    the caller's messages and nothing else.  The statement is about the
    calls made on the controller; what a reader that has not read the
    chunks by then still gets is the platform's matter. *)
Theorem broken_response_errors_stream settings messages (st : state)
    w' resp e :
  ollama_chat env (world env st) settings (conversation env st messages)
    (backend_tools (getOllamaTools (mcpToolMap env st))) = (w', Ok resp) ->
  failure resp = Some e ->
  let run := chat env settings messages st in
  status env (fst run) = Errored e
  /\ enqueued (log env (fst run)) =
     enqueued (log env st) ++ chunks (parts resp)
  /\ pushed_messages (log env (fst run)) = pushed_messages (log env st)
  /\ arrays env (fst run) !! length (arrays env st) =
     Some (default [] (arrays env st !! messages))
  /\ model_calls (log env (fst run)) = model_calls (log env st) + 1.
Proof.
  intros Hchat Hfail. cbn zeta. rewrite chat_unfold.
  change maxIterations with (S 9).
  rewrite (chat_loop_stream_fails env _ _ _ _ _ _ w' resp e);
    [| unfold maxIterations; lia
     | by rewrite conversation_started; destruct st
     | done].
  destruct st as [w cl cs cat arrs objs stat lg].
  cbn -[model_calls conversation].
  split; [done|].
  rewrite !enqueued_app, !pushed_messages_app, lookup_snoc.
  cbn -[model_calls conversation].
  rewrite enqueued_enqueues, pushed_enqueues, !app_nil_r.
  repeat split; try done. count_model_calls.
Qed.

(** X7. When the first call to the backend throws, [chat] ends the stream
    in error with that error; nothing has been enqueued and nothing
    pushed. *)
Theorem backend_error_errors_stream settings messages (st : state) w' e :
  ollama_chat env (world env st) settings (conversation env st messages)
    (backend_tools (getOllamaTools (mcpToolMap env st))) = (w', Throw e) ->
  let run := chat env settings messages st in
  status env (fst run) = Errored e
  /\ enqueued (log env (fst run)) = enqueued (log env st)
  /\ pushed_messages (log env (fst run)) = pushed_messages (log env st)
  /\ objects env (fst run) = objects env st
  /\ model_calls (log env (fst run)) = model_calls (log env st) + 1.
Proof.
  intros Hchat. cbn zeta. rewrite chat_unfold.
  change maxIterations with (S 9).
  rewrite (chat_loop_model_throws env _ _ _ _ _ _ w' e);
    [| unfold maxIterations; lia
     | by rewrite conversation_started; destruct st].
  destruct st as [w cl cs cat arrs objs stat lg].
  cbn -[model_calls conversation].
  split; [done|].
  rewrite !enqueued_app, !pushed_messages_app. cbn -[model_calls conversation].
  rewrite !app_nil_r. repeat split; try done. count_model_calls.
Qed.

(** *** The conversation from one turn to the next *)

Lemma conversation_push (st st' : state) a l x m :
  arrays env st !! a = Some l ->
  Forall (fun y => y < length (objects env st)) l ->
  arrays env st' = <[a := l ++ [x]]> (arrays env st) ->
  objects env st' = objects env st ++ [m] ->
  x = length (objects env st) ->
  conversation env st' a = conversation env st a ++ [m]
  /\ valid_conversation env st' a.
Proof.
  intros Ha Hl Harr Hobj ->.
  assert (a < length (arrays env st)) as Hlt by by eapply lookup_lt_Some.
  assert (arrays env st' !! a = Some (l ++ [length (objects env st)])) as Ha'.
  { rewrite Harr. by apply list_lookup_insert_eq. }
  split.
  - unfold conversation. rewrite Ha', Ha, Hobj. cbn [from_option id].
    rewrite map_app. cbn [map]. rewrite lookup_snoc. cbn [from_option id].
    f_equal. apply map_ext_Forall.
    eapply Forall_impl; [exact Hl|]. intros y Hy. cbn beta.
    by rewrite lookup_app_l.
  - exists (l ++ [length (objects env st)]). split; [done|].
    rewrite Hobj, length_app. cbn [length].
    apply Forall_app. split.
    + eapply Forall_impl; [exact Hl|]. intros y Hy. cbn beta in *. lia.
    + constructor; [lia | constructor].
Qed.

Lemma conversation_after_tool_call (st : state) a c d name v :
  valid_conversation env st a ->
  conversation env (after_tool_call env st a c d name v) a =
  conversation env st a
    ++ [result_message env name (snd (dispatch env st d name v))]
  /\ valid_conversation env (after_tool_call env st a c d name v) a.
Proof.
  intros (l & Ha & Hl).
  eapply (conversation_push st _ a l); try done.
  unfold after_tool_call. cbn [arrays]. by rewrite Ha.
Qed.

Lemma conversation_after_annotation (st : state) cur w' resp :
  valid_conversation env st cur ->
  conversation env (after_annotation env st cur w' resp) cur =
  conversation env st cur
    ++ [append_content (tool_calls_block env (final_calls (parts resp)))
          (received (parts resp) new_message)]
  /\ valid_conversation env (after_annotation env st cur w' resp) cur.
Proof.
  intros (l & Ha & Hl).
  eapply (conversation_push st _ cur l); try done.
  unfold after_annotation. cbn [arrays]. by rewrite Ha.
Qed.

Lemma executeToolCalls_conversation cat tcs a c (st : state) :
  valid_conversation env st a ->
  mcpToolMap env st = cat ->
  Forall (executable env cat) tcs ->
  exists st1 msgs,
    executeToolCalls env tcs a c st = (st1, Ok tt)
    /\ conversation env st1 a = conversation env st a ++ msgs
    /\ Forall2 (fun tc m => exists content,
                  m = tool_message (tc_name tc) content) tcs msgs
    /\ conversations_sent (log env st1) = conversations_sent (log env st).
Proof.
  intros Hvalid Hcat Hall. revert st Hvalid Hcat.
  induction Hall as [|tc tcs [[v Hdec] [d Hget]] _ IH]; intros st Hvalid Hcat.
  - exists st, []. rewrite app_nil_r. repeat split; constructor.
  - rewrite executeToolCalls_cons.
    rewrite (executeToolCall_resolved env a c tc v d st Hdec);
      [|by rewrite Hcat].
    destruct (conversation_after_tool_call st a c d (tc_name tc) v Hvalid)
      as [Hconv Hvalid1].
    destruct (IH (after_tool_call env st a c d (tc_name tc) v) Hvalid1 Hcat)
      as (st1 & msgs & Hrun & Hconv1 & Hmsgs & Hsent).
    exists st1, (result_message env (tc_name tc)
                   (snd (dispatch env st d (tc_name tc) v)) :: msgs).
    split; [done|]. split; [by rewrite Hconv1, Hconv, <- app_assoc|].
    split.
    + constructor; [apply result_message_tool | done].
    + rewrite Hsent. unfold after_tool_call. cbn [log].
      rewrite !conversations_sent_app. unfold dispatch_events.
      destruct (existsb _ _), c; cbn; by rewrite app_nil_r.
Qed.

Lemma conversations_sent_enqueues l : conversations_sent (map EvEnqueue l) = [].
Proof. by induction l. Qed.

Lemma chat_loop_sent settings allTools cur fuel i (st : state) :
  i < maxIterations ->
  exists rest,
    conversations_sent
      (log env (fst (chat_loop env (S fuel) settings allTools cur i st))) =
    conversations_sent (log env st) ++ conversation env st cur :: rest.
Proof.
  intros Hi.
  destruct (chat_loop_log settings allTools cur (S fuel) i st)
    as (evs & -> & _ & Hfirst).
  destruct (Hfirst Hi ltac:(lia)) as [evs' ->].
  rewrite conversations_sent_app. cbn. eauto.
Qed.

(** X8. After a turn whose tool calls all decode and resolve, the next
    call to the backend is made with the conversation of the turn followed
    by the message streamed in the turn, whose content now ends with the
    tool-call annotation that was appended to it after it was pushed, and
    by one tool-role message per tool call, in the order of the calls. *)
Theorem next_turn_conversation fuel settings allTools cur i (st : state)
    w' resp :
  valid_conversation env st cur ->
  i + 1 < maxIterations ->
  ollama_chat env (world env st) settings (conversation env st cur)
    (backend_tools allTools) = (w', Ok resp) ->
  failure resp = None ->
  final_calls (parts resp) <> [] ->
  Forall (executable env (mcpToolMap env st)) (final_calls (parts resp)) ->
  exists msgs rest,
    Forall2 (fun tc m => exists content,
               m = tool_message (tc_name tc) content)
            (final_calls (parts resp)) msgs
    /\ conversations_sent
         (log env
            (fst (chat_loop env (S (S fuel)) settings allTools cur i st))) =
       conversations_sent (log env st)
         ++ conversation env st cur
         :: (conversation env st cur
               ++ [append_content
                     (tool_calls_block env (final_calls (parts resp)))
                     (received (parts resp) new_message)]
               ++ msgs)
         :: rest.
Proof.
  intros Hvalid Hi Hchat Hfail Hne Hexec.
  rewrite (chat_loop_step env _ _ _ _ _ _ w' resp) by (done || lia).
  destruct (length (final_calls (parts resp)) =? 0)%nat eqn:Hlen.
  { apply Nat.eqb_eq in Hlen. by destruct (final_calls (parts resp)). }
  destruct (conversation_after_annotation st cur w' resp Hvalid)
    as [Hconv Hvalid1].
  destruct (executeToolCalls_conversation (mcpToolMap env st)
              (final_calls (parts resp)) cur true
              (after_annotation env st cur w' resp) Hvalid1 eq_refl Hexec)
    as (st1 & msgs & Hrun & Hconv1 & Hmsgs & Hsent).
  rewrite Hrun.
  destruct (chat_loop_sent settings allTools cur fuel (i + 1) st1 Hi)
    as [rest Hrest].
  exists msgs, rest. split; [done|].
  rewrite Hrest, Hsent, Hconv1, Hconv.
  unfold after_annotation. cbn [log].
  rewrite !conversations_sent_app, conversations_sent_enqueues. cbn.
  by rewrite <- !app_assoc.
Qed.

(** *** What the user sees and what the model sees *)

(** X9. Each tool call that [executeToolCalls] completes pushes one
    message; with a controller it enqueues one annotation block per message,
    built from the same result as the message, and without a controller it
    enqueues nothing.  When the function returns, every call is completed. *)
Theorem annotations_match_messages toolCalls messages controller (st : state) :
  let run := executeToolCalls env toolCalls messages controller st in
  exists blocks msgs,
    enqueued (log env (fst run)) = enqueued (log env st) ++ blocks
    /\ pushed_messages (log env (fst run)) =
       pushed_messages (log env st) ++ msgs
    /\ (if controller
        then Forall2 (fun block m => exists name r,
                        block = result_block env name r
                        /\ m = result_message env name r) blocks msgs
        else blocks = [])
    /\ length msgs <= length toolCalls
    /\ (snd run = Ok tt -> length msgs = length toolCalls).
Proof.
  cbn zeta. revert st. induction toolCalls as [|tc tcs IH]; intros st.
  - exists [], []. rewrite executeToolCalls_nil, !app_nil_r. cbn.
    repeat split; try done. destruct controller; [constructor | done].
  - rewrite executeToolCalls_cons.
    destruct (executeToolCall_cases env messages controller tc st)
      as [(e & _ & ->) | [(v & _ & _ & ->) | (v & d & _ & _ & ->)]].
    + exists [], []. rewrite !app_nil_r. cbn.
      repeat split; try done; try lia.
      destruct controller; [constructor | done].
    + exists [], []. rewrite !app_nil_r. cbn.
      repeat split; try done; try lia.
      destruct controller; [constructor | done].
    + assert (log env (after_tool_call env st messages controller d
                         (tc_name tc) v) =
              log env st ++ dispatch_events env st d (tc_name tc) v
                ++ (if controller
                    then [EvEnqueue (result_block env (tc_name tc)
                            (snd (dispatch env st d (tc_name tc) v)))]
                    else [])
                ++ [EvPush messages (length (objects env st))
                      (result_message env (tc_name tc)
                         (snd (dispatch env st d (tc_name tc) v)))])
        as Hlog by done.
      destruct (IH (after_tool_call env st messages controller d (tc_name tc) v))
        as (blocks & msgs & Henq & Hpush & Hpair & Hle & Hok).
      rewrite Henq, Hpush, Hlog.
      rewrite !enqueued_app, !pushed_messages_app.
      unfold dispatch_events.
      exists ((if controller
               then [result_block env (tc_name tc)
                       (snd (dispatch env st d (tc_name tc) v))]
               else []) ++ blocks),
             (result_message env (tc_name tc)
                (snd (dispatch env st d (tc_name tc) v)) :: msgs).
      split; [|split; [|split; [|split]]].
      * destruct (existsb _ _), controller; cbn;
          by rewrite <- ?app_assoc, ?app_nil_r.
      * destruct (existsb _ _), controller; cbn;
          by rewrite <- ?app_assoc, ?app_nil_r.
      * destruct controller; cbn; [|done]. constructor; [eauto | done].
      * cbn. lia.
      * intros H. cbn. by rewrite (Hok H).
Qed.

(** *** Configuration errors and failed connections *)

Lemma connect_server_config_error name serverInfo msg (st : state) :
  config_error name serverInfo = Some msg ->
  connect_server env name serverInfo st = (st, Throw (Err msg)).
Proof.
  unfold config_error, connect_server.
  destruct (String.eqb (srv_type serverInfo) "sse").
  - destruct (srv_url serverInfo) as [url|]; [|by intros [= <-]].
    destruct (String.eqb url EmptyString); [by intros [= <-] | done].
  - destruct (String.eqb (srv_type serverInfo) "stdio"); [|by intros [= <-]].
    destruct (srv_command serverInfo) as [command|]; [|by intros [= <-]].
    destruct (srv_args serverInfo) as [args|]; [|by intros [= <-]].
    destruct (String.eqb command EmptyString); [by intros [= <-] | done].
Qed.

(** What a connection attempt does to the client, by its outcome. *)
Lemma connect_server_effect name serverInfo (st : state) :
  let run := connect_server env name serverInfo st in
  mcpToolMap env (fst run) = mcpToolMap env st
  /\ listings_asked (log env (fst run)) = listings_asked (log env st)
  /\ match snd run with
     | Ok _ =>
         log env (fst run) = log env st ++ [EvConnect name]
         /\ clients env (fst run) =
            (if existsb (String.eqb name) (clients env st)
             then clients env st else clients env st ++ [name])
         /\ connectedServers env (fst run) = connectedServers env st ++ [name]
     | Throw _ =>
         clients env (fst run) = clients env st
         /\ connectedServers env (fst run) = connectedServers env st
     end.
Proof.
  cbn zeta. unfold connect_server.
  destruct (String.eqb (srv_type serverInfo) "sse").
  - destruct (srv_url serverInfo) as [url|]; [|done].
    destruct (String.eqb url EmptyString); [done|].
    unfold bind, lift_result, connect_client, bind, emit, modify, call_world,
      clients_set, modify.
    destruct (new_URL env url) as [u|e]; [|done]. cbn.
    destruct (connect env _ _ _) as [w' [[]|e]]; cbn;
      destruct (existsb (String.eqb name) (clients env st)); cbn;
      rewrite ?listings_asked_app; cbn; by rewrite ?app_nil_r.
  - destruct (String.eqb (srv_type serverInfo) "stdio"); [|done].
    destruct (srv_command serverInfo) as [command|]; [|done].
    destruct (srv_args serverInfo) as [args|]; [|done].
    destruct (String.eqb command EmptyString); [done|].
    unfold bind, lift_result, connect_client, bind, emit, modify, call_world,
      clients_set, modify. cbn.
    destruct (connect env _ _ _) as [w' [[]|e]]; cbn;
      destruct (existsb (String.eqb name) (clients env st)); cbn;
      rewrite ?listings_asked_app; cbn; by rewrite ?app_nil_r.
Qed.

Lemma all_connect_effect servers (st st2 : state) :
  all_connect env st servers st2 ->
  log env st2 = log env st ++ map EvConnect (map fst servers)
  /\ mcpToolMap env st2 = mcpToolMap env st
  /\ connectedServers env st2 = connectedServers env st ++ map fst servers.
Proof.
  induction 1 as [st | st n i st1 rest st2 Hc _ (IHl & IHm & IHc)].
  - cbn. by rewrite !app_nil_r.
  - pose proof (connect_server_effect n i st) as (Hm & _ & Hok).
    rewrite Hc in Hm, Hok. cbn [fst snd] in *.
    destruct Hok as (Hl & _ & Hcs).
    rewrite IHl, IHm, IHc, Hl, Hm, Hcs. cbn [map fst].
    by rewrite <- !app_assoc.
Qed.

Lemma all_connect_clients servers (st st2 : state) :
  all_connect env st servers st2 ->
  NoDup (map fst servers) ->
  (forall n, n ∈ map fst servers -> n ∉ clients env st) ->
  clients env st2 = clients env st ++ map fst servers.
Proof.
  induction 1 as [st | st n i st1 rest st2 Hc _ IH]; intros Hnd Hfresh.
  - cbn. by rewrite app_nil_r.
  - cbn [map fst] in *. apply NoDup_cons in Hnd as [Hn Hnd].
    pose proof (connect_server_effect n i st) as (_ & _ & Hok).
    rewrite Hc in Hok. cbn [fst snd] in Hok. destruct Hok as (_ & Hcl & _).
    assert (existsb (String.eqb n) (clients env st) = false) as Hex.
    { apply not_true_is_false. intros (x & Hx & Heq)%existsb_exists.
      apply String.eqb_eq in Heq. subst x.
      apply (Hfresh n); [apply elem_of_cons; by left|].
      by apply list_elem_of_In. }
    rewrite Hex in Hcl. rewrite IH; [|done|].
    + rewrite Hcl. by rewrite <- app_assoc.
    + intros m Hm. rewrite Hcl. intros [Hin | Hin%list_elem_of_singleton]%elem_of_app.
      * apply (Hfresh m); [apply elem_of_cons; by right | done].
      * by subst.
Qed.

(** X10. A server entry that lacks what its transport requires, or names
    an unsupported transport, ends [initialize] with "Failed to connect to
    MCP server" followed by its name and the message of the check; the
    state is the one the servers before it left, so no connection is
    attempted for the entry or for any entry after it, and no server is
    asked for its tools. *)
Theorem misconfigured_server_aborts (st : state) w1 pre name serverInfo rest
    st2 msg :
  read_config env (world env st) = (w1, Ok (pre ++ (name, serverInfo) :: rest)) ->
  all_connect env (with_world env w1 st) pre st2 ->
  config_error name serverInfo = Some msg ->
  initialize env st =
  (st2, Throw (Err ("Failed to connect to MCP server " +:+ name +:+ ": "
                    +:+ msg)))
  /\ connections (log env st2) = connections (log env st) ++ map fst pre
  /\ listings_asked (log env st2) = listings_asked (log env st).
Proof.
  intros Hcfg Hpre Herr. split; [|split].
  - rewrite initialize_unfold, Hcfg.
    rewrite (connect_loop_fail_fast env pre name serverInfo rest (Err msg)
               _ st2 st2); [done | done |].
    by apply connect_server_config_error.
  - destruct (all_connect_effect _ _ _ Hpre) as (-> & _).
    rewrite connections_app.
    replace (log env (with_world env w1 st)) with (log env st) by by destruct st.
    f_equal. clear. induction pre as [|[n i] pre IH]; [done|].
    cbn. by rewrite IH.
  - destruct (all_connect_effect _ _ _ Hpre) as (-> & _).
    rewrite listings_asked_app.
    replace (log env (with_world env w1 st)) with (log env st) by by destruct st.
    rewrite <- (app_nil_r (listings_asked (log env st))) at 2. f_equal.
    clear. by induction pre as [|[n i] pre IH].
Qed.

(** X11. When a server fails to connect, the servers connected before it
    stay connected: after the failed [initialize] of a new client,
    [getConnectedServers] lists them, the catalog is empty, and no server
    has been asked for its tools. *)
Theorem failed_connection_keeps_earlier (st : state) w1 pre name serverInfo
    rest st2 st3 e :
  read_config env (world env st) = (w1, Ok (pre ++ (name, serverInfo) :: rest)) ->
  all_connect env (with_world env w1 (construct env st)) pre st2 ->
  connect_server env name serverInfo st2 = (st3, Throw e) ->
  let run := initialize env (construct env st) in
  snd run = Throw (Err ("Failed to connect to MCP server " +:+ name +:+ ": "
                        +:+ message e))
  /\ getConnectedServers env (fst run) = map fst pre
  /\ getToolCount env (fst run) = 0
  /\ listings_asked (log env (fst run)) = listings_asked (log env st).
Proof.
  intros Hcfg Hpre Hfail. cbn zeta.
  rewrite initialize_unfold.
  replace (world env (construct env st)) with (world env st) by by destruct st.
  rewrite Hcfg.
  rewrite (connect_loop_fail_fast env pre name serverInfo rest e _ st2 st3)
    by done.
  cbn [fst snd]. split; [done|].
  destruct (all_connect_effect _ _ _ Hpre) as (Hl & Hm & Hc).
  pose proof (connect_server_effect name serverInfo st2) as (Hm3 & Hl3 & Hthrow).
  rewrite Hfail in Hm3, Hl3, Hthrow. cbn [fst snd] in *.
  destruct Hthrow as [_ Hc3].
  unfold getConnectedServers, getToolCount.
  rewrite Hc3, Hc, Hm3, Hm, Hl3, Hl, listings_asked_app.
  destruct st. cbn. split; [done|]. split; [done|].
  rewrite <- (app_nil_r (listings_asked log0)) at 2. f_equal.
  clear. by induction pre as [|[n i] pre IH].
Qed.

(** *** The order of a successful initialization, and a failed listing *)

Lemma for_each_app {A} (l1 l2 : list A) (body : A -> M env unit) (st : state) :
  for_each env (l1 ++ l2) body st =
  match for_each env l1 body st with
  | (st', Ok _) => for_each env l2 body st'
  | (st', Throw e) => (st', Throw e)
  end.
Proof.
  revert st. induction l1 as [|x l1 IH]; intros st; [done|].
  cbn [app for_each]. unfold bind.
  destruct (body x st) as [st1 [[]|e]]; [apply IH | done].
Qed.

Lemma list_server_tools_frame s (st : state) :
  let run := list_server_tools env s st in
  log env (fst run) = log env st ++ [EvListTools s]
  /\ clients env (fst run) = clients env st
  /\ connectedServers env (fst run) = connectedServers env st.
Proof.
  cbn zeta. unfold list_server_tools, bind, emit, modify, call_world. cbn.
  destruct (listTools env (world env st) s) as [w1 [v|e]].
  - rewrite for_each_register_tool. by destruct st.
  - by destruct st.
Qed.

Lemma list_loop_frame cs (st : state) :
  let run := for_each env cs (list_server_tools env) st in
  clients env (fst run) = clients env st
  /\ connectedServers env (fst run) = connectedServers env st
  /\ (snd run = Ok tt -> log env (fst run) = log env st ++ map EvListTools cs).
Proof.
  cbn zeta. revert st. induction cs as [|s cs IH]; intros st.
  - cbn. by rewrite app_nil_r.
  - cbn [for_each]. unfold bind.
    pose proof (list_server_tools_frame s st) as (Hl & Hc & Hcs).
    destruct (list_server_tools env s st) as [st1 [[]|e]]; cbn [fst snd] in *.
    + destruct (IH st1) as (Hc1 & Hcs1 & Hl1).
      rewrite Hc1, Hcs1, Hc, Hcs. repeat split.
      intros Hok. rewrite (Hl1 Hok), Hl. cbn [map]. by rewrite <- app_assoc.
    + by repeat split.
Qed.

Lemma fst_names_connect (l : list (string * MCPServer)) :
  connections (map EvConnect (map fst l)) = map fst l.
Proof. induction l as [|[n i] l IH]; [done|]. cbn. by rewrite IH. Qed.

(** X12. When [initialize] succeeds on a new client whose configuration
    names each server once, every server of the configuration has been
    connected, in the order of the configuration, before any server has
    been asked for its tools, and the servers have then been asked in the
    same order; [getConnectedServers] lists them in that order. *)
Theorem initialize_connects_then_lists (st : state) w1 servers :
  read_config env (world env st) = (w1, Ok servers) ->
  NoDup (map fst servers) ->
  snd (initialize env (construct env st)) = Ok tt ->
  let st' := fst (initialize env (construct env st)) in
  getConnectedServers env st' = map fst servers
  /\ clients env st' = map fst servers
  /\ log env st' =
     log env st ++ map EvConnect (map fst servers)
       ++ map EvListTools (map fst servers)
  /\ servers <> [].
Proof.
  intros Hcfg Hnd. cbn zeta. rewrite initialize_unfold.
  replace (world env (construct env st)) with (world env st) by by destruct st.
  rewrite Hcfg.
  destruct (for_each env servers (connect_guarded env) _)
    as [st2 [[]|e]] eqn:Hloop; [|done].
  apply connect_loop_ok in Hloop.
  destruct (all_connect_effect _ _ _ Hloop) as (Hl & _ & Hc).
  pose proof (all_connect_clients _ _ _ Hloop Hnd) as Hcl.
  replace (clients env (with_world env w1 (construct env st)))
    with (@nil string) in Hcl by by destruct st.
  specialize (Hcl ltac:(intros n _ Hn; by apply elem_of_nil in Hn)).
  replace (connectedServers env (with_world env w1 (construct env st)))
    with (@nil string) in Hc by by destruct st.
  replace (log env (with_world env w1 (construct env st)))
    with (log env st) in Hl by by destruct st.
  cbn [app] in Hcl, Hc.
  destruct (length (connectedServers env st2) =? 0)%nat eqn:Hlen; [done|].
  unfold initializeTools, try_catch, bind, gets, throw.
  pose proof (list_loop_frame (clients env st2) st2) as (Hcl3 & Hc3 & Hl3).
  destruct (for_each env (clients env st2) (list_server_tools env) st2)
    as [st3 [[]|e]]; [|done].
  cbn [fst snd] in *. intros _. unfold getConnectedServers.
  rewrite Hc3, Hcl3, (Hl3 eq_refl), Hc, Hcl, Hl, <- app_assoc.
  repeat split. intros ->. rewrite Hc in Hlen. done.
Qed.

Lemma list_server_tools_throws s w2 e (st : state) :
  listTools env (world env st) s = (w2, Throw e) ->
  list_server_tools env s st =
  (with_world env w2 (with_log env (log env st ++ [EvListTools s]) st),
   Throw e).
Proof.
  intros Hthrow. unfold list_server_tools, bind, emit, modify, call_world.
  cbn. by rewrite Hthrow.
Qed.

Lemma listings_asked_lists cs :
  listings_asked (map EvListTools cs) = cs.
Proof. induction cs as [|s cs IH]; [done|]. cbn. by rewrite IH. Qed.

(** X13. When a server's listing call throws, [initializeTools] throws
    "Failed to list MCP tools" with the message of the error, and the tools
    of the servers listed before it stay in the catalog: a lookup gives the
    last record registered under the name by those servers, or what the
    catalog held before.  The servers after it are not asked. *)
Theorem failed_listing_keeps_earlier_tools (st : state) pre s rest listings
    w1 w2 e :
  clients env st = pre ++ s :: rest ->
  lists env (world env st) pre listings w1 ->
  listTools env w1 s = (w2, Throw e) ->
  let run := initializeTools env st in
  snd run = Throw (Err ("Failed to list MCP tools: " +:+ message e))
  /\ (forall k,
        JSMap.get k (mcpToolMap env (fst run)) =
        match last_registered k (records listings) with
        | Some r => Some (descriptor (fst r) (snd r))
        | None => JSMap.get k (mcpToolMap env st)
        end)
  /\ listings_asked (log env (fst run)) =
     listings_asked (log env st) ++ pre ++ [s].
Proof.
  intros Hclients Hlists Hthrow. cbn zeta.
  destruct (for_each_list_server_tools env _ _ _ _ Hlists st eq_refl)
    as (st1 & Hrun & Hmap & Hw & _).
  pose proof (list_loop_frame pre st) as (_ & _ & Hlog).
  rewrite Hrun in Hlog. cbn [fst snd] in Hlog. specialize (Hlog eq_refl).
  assert (initializeTools env st =
          (with_world env w2
             (with_log env (log env st1 ++ [EvListTools s]) st1),
           Throw (Err ("Failed to list MCP tools: " +:+ message e)))) as ->.
  { unfold initializeTools, try_catch, gets, throw. unfold bind at 1.
    rewrite Hclients, for_each_app, Hrun. cbn [for_each]. unfold bind.
    by rewrite (list_server_tools_throws s w2 e st1) by by rewrite Hw. }
  cbn [fst snd]. split; [done|]. split.
  - intros k. rewrite <- get_fold_register, <- Hmap. by destruct st1.
  - replace (log env (with_world env w2 _))
      with (log env st1 ++ [EvListTools s]) by by destruct st1.
    rewrite Hlog, !listings_asked_app, listings_asked_lists. cbn.
    by rewrite <- app_assoc.
Qed.

(** *** The singleton and the request handler *)

Lemma chat_returns settings messages (st : state) :
  snd (chat env settings messages st) = Ok tt.
Proof.
  rewrite chat_unfold.
  by destruct (chat_loop env maxIterations _ _ _ _ _) as [st' [[]|e]].
Qed.

Lemma chat_log settings messages (st : state) :
  exists evs,
    log env (fst (chat env settings messages st)) = log env st ++ evs
    /\ request_events evs.
Proof.
  rewrite chat_unfold.
  destruct (chat_loop_log settings (getOllamaTools (mcpToolMap env st))
              (length (arrays env st)) maxIterations 0
              (started env st messages)) as (evs & Hlog & Hevs & _).
  exists evs. split; [|done].
  destruct (chat_loop env maxIterations _ _ _ _ _) as [st' [[]|e]];
    cbn [fst] in *;
    (replace (log env st) with (log env (started env st messages))
       by by destruct st);
    by destruct st'.
Qed.

Lemma POST_unfold settings messages (p : process env) :
  POST env settings messages p =
  if mcpClientInstance env p then
    (mkProcess env true (fst (chat env settings messages (current env p))),
     StreamingTextResponse)
  else
    match initialize env (construct env (current env p)) with
    | (st1, Ok _) =>
        (mkProcess env true (fst (chat env settings messages st1)),
         StreamingTextResponse)
    | (st1, Throw error) =>
        (mkProcess env true st1,
         ErrorResponse
           (JSON_stringify env
              (VObj [("message", VStr (errorMessage error))])) 500)
    end.
Proof.
  unfold POST, getMCPClient. destruct (mcpClientInstance env p) eqn:Hp.
  - cbn -[chat]. by rewrite chat_returns, Hp.
  - destruct (initialize env (construct env (current env p)))
      as [st1 [[]|e]]; cbn -[chat]; [|done].
    by rewrite chat_returns.
Qed.

(** X14. Initialization is attempted by the first request that reaches
    [getMCPClient], whether or not it succeeds, and by no request after
    it.  A request whose body cannot be read rejects before that call; any
    other request leaves the variable holding a client.  From then on a
    request attempts no connection, asks no server for its tools, and
    leaves the catalog and the connected servers as they are, whatever
    its body: it rejects when the body cannot be read, is answered with
    status 500 and the message of the platform's error when the body has
    no [messages], and is answered with a stream when the body holds a
    list of messages. *)
Theorem requests_initialize_once request1 request2 (p : process env) :
  readable env request1 = true ->
  let p1 := fst (POST_request env request1 p) in
  let run := POST_request env request2 p1 in
  mcpClientInstance env p1 = true
  /\ snd run =
     match request2 with
     | Unreadable _ error => Throw error
     | WithoutMessages _ error =>
         Ok (ErrorResponse
               (JSON_stringify env
                  (VObj [("message", VStr (errorMessage error))]))
               500)
     | WithMessages _ _ _ => Ok StreamingTextResponse
     end
  /\ connections (log env (current env (fst run))) =
     connections (log env (current env p1))
  /\ listings_asked (log env (current env (fst run))) =
     listings_asked (log env (current env p1))
  /\ mcpToolMap env (current env (fst run)) = mcpToolMap env (current env p1)
  /\ getConnectedServers env (current env (fst run)) =
     getConnectedServers env (current env p1).
Proof.
  intros Hreadable. cbn zeta.
  assert (mcpClientInstance env (fst (POST_request env request1 p)) = true)
    as Hinst.
  { destruct request1 as [error | error | settings1 messages1];
      [discriminate Hreadable | |].
    - cbn [POST_request fst]. unfold getMCPClient.
      by destruct (mcpClientInstance env p) eqn:Hp.
    - cbn [POST_request fst]. rewrite POST_unfold.
      destruct (mcpClientInstance env p); [done|].
      by destruct (initialize env _) as [st1 [[]|e]]. }
  split; [done|].
  set (p1 := fst (POST_request env request1 p)) in *. clearbody p1.
  destruct request2 as [error | error | settings2 messages2].
  - by cbn [POST_request fst snd].
  - cbn [POST_request]. unfold getMCPClient. rewrite Hinst.
    by cbn [fst snd].
  - cbn [POST_request]. rewrite POST_unfold, Hinst. cbn [fst snd current].
    split; [done|].
    destruct (chat_log settings2 messages2 (current env p1))
      as (evs & -> & Hc & Hl).
    rewrite connections_app, listings_asked_app, Hc, Hl, !app_nil_r.
    destruct (chat_keeps_client_fields settings2 messages2 (current env p1))
      as (Hm & _ & Hcs).
    by repeat split.
Qed.

Lemma errorMessage_failed_to_connect name msg :
  errorMessage
    (Err ("Failed to connect to MCP server " +:+ name +:+ ": " +:+ msg)) =
  "Failed to connect to MCP server " +:+ name +:+ ": " +:+ msg.
Proof. done. Qed.

(** X15. When a server fails to connect during the first request of a
    process, the response is an error response of status 500 whose body is
    the serialized object holding the message "Failed to connect to MCP
    server", the name and the cause; the backend is not called and the
    variable holds the client all the same. *)
Theorem first_request_reports_failed_connection settings messages
    (p : process env) w1 pre name serverInfo rest st2 st3 e :
  mcpClientInstance env p = false ->
  read_config env (world env (current env p)) =
    (w1, Ok (pre ++ (name, serverInfo) :: rest)) ->
  all_connect env (with_world env w1 (construct env (current env p))) pre st2 ->
  connect_server env name serverInfo st2 = (st3, Throw e) ->
  POST env settings messages p =
  (mkProcess env true st3,
   ErrorResponse
     (JSON_stringify env
        (VObj [("message",
                VStr ("Failed to connect to MCP server " +:+ name +:+ ": "
                      +:+ message e))]))
     500).
Proof.
  intros Hinst Hcfg Hpre Hfail.
  rewrite POST_unfold, Hinst, initialize_unfold.
  replace (world env (construct env (current env p)))
    with (world env (current env p)) by by destruct (current env p).
  rewrite Hcfg.
  rewrite (connect_loop_fail_fast env pre name serverInfo rest e _ st2 st3)
    by done.
  cbn [fst snd]. by rewrite errorMessage_failed_to_connect.
Qed.

(** *** Tool calls announced in several parts *)

Lemma received_app ps1 ps2 m :
  received (ps1 ++ ps2) m = received ps2 (received ps1 m).
Proof. unfold received. by rewrite fold_left_app. Qed.

Lemma received_fields ps m :
  msg_role (received ps m) = msg_role m
  /\ msg_name (received ps m) = msg_name m
  /\ msg_content (received ps m) = msg_content m +:+ text ps.
Proof.
  revert m. induction ps as [|part ps IH]; intros m.
  - cbn. by rewrite string_app_nil_r.
  - unfold received in *. cbn [fold_left].
    destruct (IH (received_part m part)) as (-> & -> & ->).
    rewrite text_cons. unfold received_part.
    destruct (part_tool_calls part), (part_content part); cbn;
      by rewrite ?string_app_assoc.
Qed.

Lemma received_keeps_calls ps m :
  Forall (fun part => part_tool_calls part = None) ps ->
  msg_tool_calls (received ps m) = msg_tool_calls m.
Proof.
  intros Hps. revert m. induction Hps as [|part ps Hpart _ IH]; intros m; [done|].
  unfold received in *. cbn [fold_left]. rewrite IH.
  unfold received_part. rewrite Hpart. by destruct (part_content part).
Qed.

Lemma received_last_calls ps1 part ps2 tcs m :
  part_tool_calls part = Some tcs ->
  Forall (fun q => part_tool_calls q = None) ps2 ->
  msg_tool_calls (received (ps1 ++ part :: ps2) m) = Some tcs.
Proof.
  intros Hpart Hps2.
  rewrite received_app. change (part :: ps2) with ([part] ++ ps2).
  rewrite received_app, received_keeps_calls by done.
  cbn. unfold received_part. by rewrite Hpart.
Qed.

(** X16. The tool calls of a response are those of the last part that
    carries a list of tool calls: a list announced by an earlier part is
    replaced, not extended, while the text of all parts is put together.
    After a complete response has been received into a new message, the
    message holds the whole text and that last list. *)
Theorem last_tool_calls_win ps1 part ps2 tcs x (st : state) :
  objects env st !! x = Some new_message ->
  part_tool_calls part = Some tcs ->
  Forall (fun q => part_tool_calls q = None) ps2 ->
  let run := receive env (mkResponse (ps1 ++ part :: ps2) None) x st in
  snd run = Ok tt
  /\ objects env (fst run) !! x =
     Some (mkMessage None None (text (ps1 ++ part :: ps2)) (Some tcs))
  /\ final_calls (ps1 ++ part :: ps2) = tcs.
Proof.
  intros Hx Hpart Hps2. cbn zeta.
  assert (x < length (objects env st)) as Hlt by by eapply lookup_lt_Some.
  unfold receive, bind. cbn [parts failure].
  rewrite (for_each_receive_part env _ x new_message st Hx). cbn [fst snd].
  pose proof (received_fields (ps1 ++ part :: ps2) new_message)
    as (Hr & Hn & Hc).
  pose proof (received_last_calls ps1 part ps2 tcs new_message Hpart Hps2)
    as Ht.
  split; [done|]. split.
  - destruct st; cbn in *. rewrite list_lookup_insert_eq by done.
    destruct (received (ps1 ++ part :: ps2) new_message); cbn in *.
    by subst.
  - unfold final_calls. by rewrite Ht.
Qed.

(** *** The output of a turn *)

Lemma executeToolCalls_output cat tcs a (st : state) :
  mcpToolMap env st = cat ->
  Forall (executable env cat) tcs ->
  exists st1 blocks,
    executeToolCalls env tcs a true st = (st1, Ok tt)
    /\ enqueued (log env st1) = enqueued (log env st) ++ blocks
    /\ Forall2 (fun tc block => exists r,
                  block = result_block env (tc_name tc) r) tcs blocks.
Proof.
  intros Hcat Hall. revert st Hcat.
  induction Hall as [|tc tcs [[v Hdec] [d Hget]] _ IH]; intros st Hcat.
  - exists st, []. rewrite app_nil_r. repeat split; constructor.
  - rewrite executeToolCalls_cons.
    rewrite (executeToolCall_resolved env a true tc v d st Hdec);
      [|by rewrite Hcat].
    destruct (IH (after_tool_call env st a true d (tc_name tc) v) Hcat)
      as (st1 & blocks & Hrun & Henq & Hblocks).
    exists st1, (result_block env (tc_name tc)
                   (snd (dispatch env st d (tc_name tc) v)) :: blocks).
    split; [done|]. split.
    + rewrite Henq. unfold after_tool_call. cbn [log].
      rewrite !enqueued_app. unfold dispatch_events.
      destruct (existsb _ _); cbn; by rewrite <- ?app_assoc, ?app_nil_r.
    + constructor; [eauto | done].
Qed.

(** X17. In a turn whose tool calls all decode and resolve, the stream
    receives, in this order, the text chunks of the response, the tool-call
    annotation, and one result or error block per tool call in the order of
    the calls; the loop then goes on to the next iteration. *)
Theorem turn_output_order fuel settings allTools cur i (st : state) w' resp :
  i < maxIterations ->
  ollama_chat env (world env st) settings (conversation env st cur)
    (backend_tools allTools) = (w', Ok resp) ->
  failure resp = None ->
  final_calls (parts resp) <> [] ->
  Forall (executable env (mcpToolMap env st)) (final_calls (parts resp)) ->
  exists st1 blocks,
    chat_loop env (S fuel) settings allTools cur i st =
    chat_loop env fuel settings allTools cur (i + 1) st1
    /\ enqueued (log env st1) =
       enqueued (log env st) ++ chunks (parts resp)
         ++ [tool_calls_block env (final_calls (parts resp))] ++ blocks
    /\ Forall2 (fun tc block => exists r,
                  block = result_block env (tc_name tc) r)
               (final_calls (parts resp)) blocks.
Proof.
  intros Hi Hchat Hfail Hne Hexec.
  rewrite (chat_loop_step env _ _ _ _ _ _ w' resp) by done.
  destruct (length (final_calls (parts resp)) =? 0)%nat eqn:Hlen.
  { apply Nat.eqb_eq in Hlen. by destruct (final_calls (parts resp)). }
  destruct (executeToolCalls_output (mcpToolMap env st)
              (final_calls (parts resp)) cur
              (after_annotation env st cur w' resp) eq_refl Hexec)
    as (st1 & blocks & Hrun & Henq & Hblocks).
  rewrite Hrun. exists st1, blocks. split; [done|]. split; [|done].
  rewrite Henq. unfold after_annotation. cbn [log].
  rewrite !enqueued_app, enqueued_enqueues. cbn.
  by rewrite <- !app_assoc.
Qed.

(** *** The local conversation *)

Lemma array_extends_executeToolCalls tcs cur c (st : state) l :
  arrays env st !! cur = Some l ->
  exists l', arrays env (fst (executeToolCalls env tcs cur c st)) !! cur =
             Some (l ++ l').
Proof.
  revert st l. induction tcs as [|tc tcs IH]; intros st l Hl.
  - exists []. by rewrite app_nil_r.
  - rewrite executeToolCalls_cons.
    destruct (executeToolCall_cases env cur c tc st)
      as [(e & _ & ->) | [(v & _ & _ & ->) | (v & d & _ & _ & ->)]];
      try (exists []; by rewrite app_nil_r).
    destruct (IH (after_tool_call env st cur c d (tc_name tc) v)
                (l ++ [length (objects env st)])) as [l' Hl'].
    { unfold after_tool_call. cbn [arrays]. rewrite Hl.
      apply list_lookup_insert_eq. by eapply lookup_lt_Some. }
    exists (length (objects env st) :: l'). by rewrite Hl', <- app_assoc.
Qed.

Lemma array_extends_chat_loop settings allTools cur fuel i (st : state) l :
  arrays env st !! cur = Some l ->
  exists l', arrays env (fst (chat_loop env fuel settings allTools cur i st))
               !! cur = Some (l ++ l').
Proof.
  revert i st l. induction fuel as [|fuel IH]; intros i st l Hl.
  { exists []. by rewrite app_nil_r. }
  assert (cur < length (arrays env st)) as Hlt by by eapply lookup_lt_Some.
  destruct (decide (i < maxIterations)) as [Hi|Hi].
  2:{ rewrite chat_loop_exit by done. exists []. by rewrite app_nil_r. }
  destruct (ollama_chat env (world env st) settings (conversation env st cur)
              (backend_tools allTools)) as [w' [resp|e]] eqn:Hchat.
  - destruct (failure resp) as [e|] eqn:Hfail.
    + rewrite (chat_loop_stream_fails env _ _ _ _ _ _ w' resp e) by done.
      exists []. by rewrite app_nil_r.
    + rewrite (chat_loop_step env _ _ _ _ _ _ w' resp) by done.
      destruct (length (final_calls (parts resp)) =? 0)%nat.
      * exists [length (objects env st)]. unfold after_response.
        cbn [fst arrays]. rewrite Hl. by apply list_lookup_insert_eq.
      * destruct (array_extends_executeToolCalls (final_calls (parts resp))
                    cur true (after_annotation env st cur w' resp)
                    (l ++ [length (objects env st)])) as [l1 Hl1].
        { unfold after_annotation. cbn [arrays]. rewrite Hl.
          by apply list_lookup_insert_eq. }
        destruct (executeToolCalls env _ cur true _) as [st1 [[]|e]];
          cbn [fst] in *.
        -- destruct (IH (i + 1) st1 _ Hl1) as [l2 Hl2].
           exists (length (objects env st) :: l1 ++ l2).
           rewrite Hl2. by rewrite <- !app_assoc.
        -- exists (length (objects env st) :: l1).
           rewrite Hl1. by rewrite <- !app_assoc.
  - rewrite (chat_loop_model_throws env _ _ _ _ _ _ w' e) by done.
    exists []. rewrite app_nil_r. by destruct st.
Qed.

(** X18. The conversation that [chat] builds in its own list starts with
    the caller's messages, unchanged and in order; whatever the run adds
    comes after them. *)
Theorem chat_conversation_extends settings messages (st : state) ms :
  arrays env st !! messages = Some ms ->
  Forall (fun l => l < length (objects env st)) ms ->
  exists more,
    conversation env (fst (chat env settings messages st))
      (length (arrays env st)) =
    conversation env st messages ++ more.
Proof.
  intros Hms Hvalid.
  destruct (store_preserved_chat env settings messages st) as (_ & Ho & _ & _).
  assert (exists l', arrays env (fst (chat env settings messages st))
                       !! length (arrays env st) = Some (ms ++ l')) as [l' Hl'].
  { rewrite chat_unfold.
    destruct (array_extends_chat_loop settings
                (getOllamaTools (mcpToolMap env st)) (length (arrays env st))
                maxIterations 0 (started env st messages) ms) as [l' Hl'].
    { unfold started. destruct st; cbn in *. by rewrite lookup_snoc, Hms. }
    exists l'.
    destruct (chat_loop env maxIterations _ _ _ _ _) as [st' [[]|e]];
      cbn [fst] in *; by destruct st'. }
  set (st' := fst (chat env settings messages st)) in *. clearbody st'.
  exists (map (fun l => default empty_message (objects env st' !! l)) l').
  unfold conversation. rewrite Hl', Hms. cbn [from_option id].
  rewrite map_app. f_equal. apply map_ext_Forall.
  eapply Forall_impl; [exact Hvalid|]. intros l Hl. cbn beta in *.
  by rewrite Ho.
Qed.

(** *** Connecting again *)

(** X19. Connecting servers that already have a client replaces nothing
    in the set of clients but adds their names to the list of connected
    servers once more: after it, [getConnectedServers] lists a server as
    many times as it was connected. *)
Theorem reconnecting_lists_servers_again servers (st st2 : state) :
  all_connect env st servers st2 ->
  Forall (fun n => n ∈ clients env st) (map fst servers) ->
  clients env st2 = clients env st
  /\ getConnectedServers env st2 =
     getConnectedServers env st ++ map fst servers.
Proof.
  unfold getConnectedServers.
  induction 1 as [st | st n i st1 rest st2 Hc _ IH]; intros Hin.
  - cbn. by rewrite app_nil_r.
  - cbn [map fst] in *. apply Forall_cons in Hin as [Hn Hrest].
    pose proof (connect_server_effect n i st) as (_ & _ & Hok).
    rewrite Hc in Hok. cbn [fst snd] in Hok. destruct Hok as (_ & Hcl & Hcs).
    assert (existsb (String.eqb n) (clients env st) = true) as Hex.
    { apply existsb_exists. exists n.
      split; [by apply list_elem_of_In | apply String.eqb_refl]. }
    rewrite Hex in Hcl.
    destruct IH as [IHcl IHcs]; [by rewrite Hcl|].
    rewrite IHcl, IHcs, Hcl, Hcs. by rewrite <- app_assoc.
Qed.

End ServiceProperties.

(** *** The further properties on the scenarios *)

Import Cases.

Lemma ready_catalog_ok : catalog_ok hello (ready says_hello).
Proof.
  eapply (catalog_ok_fields hello
            (fst (initialize hello (new_MCPClient hello 0)))).
  - vm_compute. reflexivity.
  - vm_compute. reflexivity.
  - apply initialize_keeps_catalog_ok. reflexivity.
Qed.

Lemma offered_tools_resolve_witness :
  Forall (fun t =>
            forall s, ot_name t = VStr s ->
              exists d,
                JSMap.get (VStr s) (mcpToolMap hello (ready says_hello)) = Some d
                /\ ot_description t = td_description d
                /\ ot_parameters t = td_inputSchema d
                /\ td_serverName d ∈ clients hello (ready says_hello))
         (getOllamaTools (mcpToolMap hello (ready says_hello))).
Proof. apply offered_tools_resolve. exact ready_catalog_ok. Defined.

Lemma resolved_call_reaches_its_server_witness :
  server_calls
    (log hello
       (fst (executeToolCall hello 0 true (mkToolCall "echo" (VObj []))
               (ready says_hello)))) =
  [("s2", "echo", VObj [])].
Proof.
  destruct (resolved_call_reaches_its_server hello 0 true
              (mkToolCall "echo" (VObj [])) (VObj []) echo_descriptor
              (ready says_hello) ready_catalog_ok eq_refl eq_refl)
    as (_ & Hcalls & _).
  exact Hcalls.
Defined.

Lemma broken_response_errors_stream_witness :
  status broken (fst (chat broken tt 0 (ready_in broken 0))) =
  Errored (Err "connection reset")
  /\ enqueued (log broken (fst (chat broken tt 0 (ready_in broken 0)))) =
     ["Hello"; ", world"].
Proof.
  destruct (broken_response_errors_stream broken tt 0 (ready_in broken 0) 1
              (mkResponse says_hello (Some (Err "connection reset")))
              (Err "connection reset") eq_refl eq_refl)
    as (Hstatus & Henq & _).
  split; [exact Hstatus | exact Henq].
Defined.

Lemma backend_error_errors_stream_witness :
  status unreachable (fst (chat unreachable tt 0 (ready_in unreachable 0))) =
  Errored (Err "fetch failed")
  /\ enqueued
       (log unreachable (fst (chat unreachable tt 0 (ready_in unreachable 0))))
     = [].
Proof.
  destruct (backend_error_errors_stream unreachable tt 0
              (ready_in unreachable 0) 1 (Err "fetch failed") eq_refl)
    as (Hstatus & Henq & _).
  split; [exact Hstatus | exact Henq].
Defined.

Lemma next_turn_conversation_witness :
  exists msgs rest,
    Forall2 (fun tc m => exists content,
               m = tool_message (tc_name tc) content)
            [mkToolCall "echo" (VStr (" " +:+ a1))] msgs
    /\ conversations_sent
         (log looping (fst (chat_loop looping 2 tt [] 1 0 looping_start))) =
       [question]
         :: ([question]
               ++ [append_content
                     (tool_calls_block looping
                        [mkToolCall "echo" (VStr (" " +:+ a1))])
                     (received calls_echo new_message)]
               ++ msgs)
         :: rest.
Proof.
  apply (next_turn_conversation looping 0 tt [] 1 0 looping_start 1
           (mkResponse calls_echo None)).
  - exists [0]. split; [reflexivity|]. constructor; [|constructor].
    apply Nat.lt_0_succ.
  - unfold maxIterations. apply Nat.lt_succ_r. apply Nat.le_succ_r. left.
    repeat constructor.
  - reflexivity.
  - reflexivity.
  - discriminate.
  - constructor; [|constructor].
    split; [exists (VObj [("a", VNum 1)]) | eexists]; reflexivity.
Defined.

Lemma annotations_match_messages_witness :
  exists blocks msgs,
    enqueued
      (log hello (fst (executeToolCalls hello echo_and_add 0 true
                         (ready says_hello)))) =
    enqueued (log hello (ready says_hello)) ++ blocks
    /\ pushed_messages
         (log hello (fst (executeToolCalls hello echo_and_add 0 true
                            (ready says_hello)))) =
       pushed_messages (log hello (ready says_hello)) ++ msgs
    /\ Forall2 (fun block m => exists name r,
                  block = result_block hello name r
                  /\ m = result_message hello name r) blocks msgs
    /\ length msgs = 2.
Proof.
  destruct (annotations_match_messages hello echo_and_add 0 true
              (ready says_hello))
    as (blocks & msgs & Henq & Hpush & Hpair & _ & Hall).
  exists blocks, msgs. split; [exact Henq|]. split; [exact Hpush|].
  split; [exact Hpair|]. apply Hall. reflexivity.
Defined.

Lemma misconfigured_server_aborts_witness :
  snd (initialize misconfigured (new_MCPClient misconfigured 0)) =
  Throw (Err "Failed to connect to MCP server s3: URL is required for SSE server: s3")
  /\ connections
       (log misconfigured
          (fst (initialize misconfigured (new_MCPClient misconfigured 0)))) =
     ["s1"].
Proof.
  eassert (all_connect misconfigured
             (with_world misconfigured 0 (new_MCPClient misconfigured 0))
             [s1_entry] _) as Hpre.
  { econstructor; [reflexivity | constructor]. }
  destruct (misconfigured_server_aborts misconfigured
              (new_MCPClient misconfigured 0) 0 [s1_entry] "s3"
              s3_without_url [s2_entry] _
              "URL is required for SSE server: s3" eq_refl Hpre eq_refl)
    as (Hinit & Hconn & _).
  rewrite Hinit. split; [reflexivity | exact Hconn].
Defined.

Lemma failed_connection_keeps_earlier_witness :
  getConnectedServers refusing
    (fst (initialize refusing (construct refusing (new_MCPClient refusing 0))))
  = ["s1"]
  /\ getToolCount refusing
       (fst (initialize refusing
               (construct refusing (new_MCPClient refusing 0)))) = 0.
Proof.
  eassert (all_connect refusing
             (with_world refusing 0
                (construct refusing (new_MCPClient refusing 0)))
             [s1_entry] _) as Hpre.
  { econstructor; [reflexivity | constructor]. }
  eassert (connect_server refusing "s2" (snd s2_entry) _ = (_, Throw (Err "refused")))
    as Hfail by reflexivity.
  destruct (failed_connection_keeps_earlier refusing
              (new_MCPClient refusing 0) 0 [s1_entry] "s2" (snd s2_entry) []
              _ _ (Err "refused") eq_refl Hpre Hfail)
    as (_ & Hconnected & Hcount & _).
  split; [exact Hconnected | exact Hcount].
Defined.

Lemma initialize_connects_then_lists_witness :
  log hello (fst (initialize hello (construct hello (new_MCPClient hello 0)))) =
  [EvConnect "s1"; EvConnect "s2"; EvListTools "s1"; EvListTools "s2"].
Proof.
  destruct (initialize_connects_then_lists hello (new_MCPClient hello 0) 0
              servers eq_refl ltac:(compute_done) eq_refl)
    as (_ & _ & Hlog & _).
  exact Hlog.
Defined.

Lemma failed_listing_keeps_earlier_tools_witness :
  snd (initializeTools unlisted
         (with_clients unlisted ["s1"; "s2"] (new_MCPClient unlisted 0))) =
  Throw (Err "Failed to list MCP tools: timeout")
  /\ JSMap.get (VStr "echo")
       (mcpToolMap unlisted
          (fst (initializeTools unlisted
                  (with_clients unlisted ["s1"; "s2"]
                     (new_MCPClient unlisted 0))))) =
     Some (mkTool (VStr "echo") (VStr "first") VUndefined "s1").
Proof.
  destruct (failed_listing_keeps_earlier_tools unlisted
              (with_clients unlisted ["s1"; "s2"] (new_MCPClient unlisted 0))
              ["s1"] "s2" [] [("s1", s1_listing)] 0 0 (Err "timeout") eq_refl)
    as (Hthrow & Hget & _).
  - econstructor; [reflexivity | constructor].
  - reflexivity.
  - split; [exact Hthrow|]. rewrite Hget. reflexivity.
Defined.

Lemma first_request_reports_failed_connection_witness :
  snd (POST refusing tt 0 (fresh_process refusing 0)) =
  ErrorResponse
    (JSON_stringify refusing
       (VObj [("message",
               VStr "Failed to connect to MCP server s2: refused")]))
    500.
Proof.
  eassert (all_connect refusing
             (with_world refusing 0
                (construct refusing (current refusing (fresh_process refusing 0))))
             [s1_entry] _) as Hpre.
  { econstructor; [reflexivity | constructor]. }
  eassert (connect_server refusing "s2" (snd s2_entry) _ = (_, Throw (Err "refused")))
    as Hfail by reflexivity.
  rewrite (first_request_reports_failed_connection refusing tt 0
             (fresh_process refusing 0) 0 [s1_entry] "s2" (snd s2_entry) []
             _ _ (Err "refused") eq_refl eq_refl Hpre Hfail).
  reflexivity.
Defined.

Lemma last_tool_calls_win_witness :
  objects hello
    (fst (receive hello (mkResponse announces_twice None) 1 receiving)) !! 1 =
  Some (mkMessage None None "Adding." (Some [mkToolCall "add" (VObj [])]))
  /\ final_calls announces_twice = [mkToolCall "add" (VObj [])].
Proof.
  destruct (last_tool_calls_win hello
              [calls_part [mkToolCall "echo" (VObj [])]; text_part "Adding"]
              (calls_part [mkToolCall "add" (VObj [])]) [text_part "."]
              [mkToolCall "add" (VObj [])] 1 receiving)
    as (_ & Hmessage & Hcalls).
  - vm_compute. reflexivity.
  - reflexivity.
  - constructor; [reflexivity | constructor].
  - split; [exact Hmessage | exact Hcalls].
Defined.

Lemma turn_output_order_witness :
  exists st1 blocks,
    chat_loop looping 2 tt [] 1 0 looping_start =
    chat_loop looping 1 tt [] 1 (0 + 1) st1
    /\ enqueued (log looping st1) =
       enqueued (log looping looping_start) ++ chunks calls_echo
         ++ [tool_calls_block looping (final_calls calls_echo)] ++ blocks
    /\ Forall2 (fun tc block => exists r,
                  block = result_block looping (tc_name tc) r)
               (final_calls calls_echo) blocks.
Proof.
  apply (turn_output_order looping 1 tt [] 1 0 looping_start 1
           (mkResponse calls_echo None)).
  - unfold maxIterations. apply Nat.lt_0_succ.
  - reflexivity.
  - reflexivity.
  - discriminate.
  - constructor; [|constructor].
    split; [exists (VObj [("a", VNum 1)]) | eexists]; reflexivity.
Defined.

Lemma chat_conversation_extends_witness :
  exists more,
    conversation hello (fst (chat hello tt 0 (ready says_hello)))
      (length (arrays hello (ready says_hello))) =
    conversation hello (ready says_hello) 0 ++ more.
Proof.
  apply (chat_conversation_extends hello tt 0 (ready says_hello) [0]).
  - vm_compute. reflexivity.
  - constructor; [vm_compute; lia | constructor].
Defined.

Lemma reconnecting_lists_servers_again_witness :
  exists st2,
    all_connect hello initialized servers st2
    /\ clients hello st2 = ["s1"; "s2"]
    /\ getConnectedServers hello st2 = ["s1"; "s2"; "s1"; "s2"].
Proof.
  eassert (all_connect hello initialized servers _) as Hagain.
  { econstructor; [reflexivity|]. econstructor; [reflexivity|]. constructor. }
  eexists. split; [exact Hagain|].
  destruct (reconnecting_lists_servers_again hello servers initialized _
              Hagain) as [Hclients Hconnected].
  - vm_compute. repeat constructor.
  - rewrite Hclients, Hconnected. split; vm_compute; reflexivity.
Defined.

Lemma requests_initialize_once_witness :
  mcpClientInstance refusing
    (fst (POST_request refusing (WithMessages refusing tt 0)
            (fresh_process refusing 0))) = true
  /\ snd (POST_request refusing (WithoutMessages refusing no_length)
            (fst (POST_request refusing (WithMessages refusing tt 0)
                    (fresh_process refusing 0)))) =
     Ok (ErrorResponse
           (JSON_stringify refusing
              (VObj [("message",
                      VStr "Cannot read properties of undefined (reading 'length')")]))
           500).
Proof.
  destruct (requests_initialize_once refusing (WithMessages refusing tt 0)
              (WithoutMessages refusing no_length) (fresh_process refusing 0)
              eq_refl) as (Hinstance & Hresponse & _).
  split; [exact Hinstance | exact Hresponse].
Defined.

Lemma chat_calls_backend_within_bound_witness :
  model_calls (log looping (ready calls_echo)) + 1 <=
  model_calls (log looping (fst (chat looping tt 0 (ready calls_echo))))
  /\ model_calls (log looping (fst (chat looping tt 0 (ready calls_echo)))) <=
     model_calls (log looping (ready calls_echo)) + maxIterations.
Proof.
  apply (chat_calls_backend_within_bound looping tt 0 (ready calls_echo) [0]).
  reflexivity.
Defined.
